(** * The alerts list view of the triggers-actions UI

    A shallow embedding of
    [x-pack/plugins/triggers_actions_ui/public/application/sections/alerts_list/components/alerts_list.tsx].

    The component is a React function component.  Its hook state is a record,
    its pure helpers ([filterAlertsById], [convertAlertsToTableItems]) are
    functions on lists, the alert-type index (a JavaScript [Map]) is a [gmap]
    keyed by alert-type id, and its asynchronous functions are resumptions:
    programs that issue state-setter calls and suspend at each [await] with
    the continuations that the render closure determines. *)

From Stdlib Require Import ZArith.
From stdpp Require Import base option list strings gmap fin_maps.

Local Open Scope string_scope.
Local Open Scope list_scope.

(** ** Data model

    Each record lives in a module of its name, so that fields keep the names
    they have in the source ([Alert.id], [AlertType.id], [AlertState.data],
    [AlertTypeState.data], ...). *)

Module Pagination.
(** Modelled from the spec: the [Pagination] type of [../../../../types],
    a zero-based page index and a page size. *)
Record t := { index : Z; size : Z }.
End Pagination.

Module AlertAction.
(** Modelled from the spec: one entry of an alert's list of actions,
    declared in [../../../../types]; the component only counts them. *)
Record t := { actionTypeId : string; group : string }.
End AlertAction.

Module Alert.
(** Modelled from the spec: the [Alert] type of [../../../../types], with
    the fields this component reads. *)
Record t := {
  id : string;
  name : string;
  tags : list string;
  actions : list AlertAction.t;
  alertTypeId : string;
  consumer : string;
  interval : string
}.
End Alert.

Module ConsumerPrivileges.
(** Modelled from the spec: the per-consumer privilege flags of an alert
    type, declared in [../../../../types]. *)
Record t := { read : bool; all : bool }.
End ConsumerPrivileges.

Module AlertType.
(** Modelled from the spec: the [AlertType] type of [../../../../types]. *)
Record t := {
  id : string;
  name : string;
  authorizedConsumers : gmap string ConsumerPrivileges.t
}.
End AlertType.

Module ActionType.
(** Modelled from the spec: the [ActionType] type of [../../../../types]. *)
Record t := { id : string; name : string }.
End ActionType.

(** [AlertTypeIndex] is [Map<string, AlertType>]. *)
Abbreviation AlertTypeIndex := (gmap string AlertType.t).

Module AlertTableItem.
(** Modelled from the spec: the [AlertTableItem] type of [../../../../types]:
    the alert (the [...alert] spread of the projection) and the derived
    fields. *)
Record t := {
  alert : Alert.t;
  actionsText : nat;
  tagsText : string;
  alertType : string;
  isEditable : bool
}.
Definition id (item : t) : string := Alert.id (alert item).
End AlertTableItem.

Definition ENTER_KEY : Z := 13.

Module AlertTypeState.
Record t := {
  isLoading : bool;
  isInitialized : bool;
  data : AlertTypeIndex
}.
(** [{ ...alertTypesState, isLoading }] *)
Definition with_isLoading (a : t) (b : bool) : t :=
  {| isLoading := b; isInitialized := isInitialized a; data := data a |}.
End AlertTypeState.

Module AlertState.
Record t := {
  isLoading : bool;
  data : list Alert.t;
  totalItemCount : Z
}.
(** [{ ...alertsState, isLoading }] *)
Definition with_isLoading (a : t) (b : bool) : t :=
  {| isLoading := b; data := data a; totalItemCount := totalItemCount a |}.
End AlertState.

(** The hook state of [AlertsList], one field per [useState]. *)
Record State := mkState {
  actionTypes : list ActionType.t;
  selectedIds : list string;
  isPerformingAction : bool;
  page : Pagination.t;
  searchText : option string;
  inputText : option string;
  typesFilter : list string;
  actionTypesFilter : list string;
  alertFlyoutVisible : bool;
  alertTypesState : AlertTypeState.t;
  alertsState : AlertState.t;
  alertsToDelete : list string
}.

(** The arguments of [loadAlerts] that the component chooses ([http] is
    ambient), and the value of the resolved promise. *)
Module LoadAlerts.
Record request := {
  page : Pagination.t;
  searchText : option string;
  typesFilter : list string;
  actionTypesFilter : list string
}.
Record response := { data : list Alert.t; total : Z }.
End LoadAlerts.

(** ** JavaScript and lodash idioms *)

(** Truthiness of an array length. *)
Definition truthy (n : nat) : bool := negb (Nat.eqb n 0).

(** lodash's [isEmpty], at the types the component applies it to. *)
Class IsEmpty (A : Type) := isEmpty : A → bool.

Global Instance isEmpty_list {A} : IsEmpty (list A) :=
  fun l => match l with [] => true | _ => false end.

Global Instance isEmpty_string : IsEmpty string :=
  fun s => match s with EmptyString => true | _ => false end.

(** [undefined] is empty. *)
Global Instance isEmpty_undefined {A} `{IsEmpty A} : IsEmpty (option A) :=
  fun o => match o with None => true | Some a => isEmpty a end.

(** [ids.includes(x)] *)
Definition includes (ids : list string) (x : string) : bool :=
  bool_decide (x ∈ ids).

(** ** Setter calls and asynchronous programs *)

(** What a function of the component does to the outside of its closure: it
    calls one of the [useState] setters, or raises a danger toast. *)
Inductive Cmd :=
| setActionTypes (v : list ActionType.t)
| setSelectedIds (v : list string)
| setIsPerformingAction (v : bool)
| setPage (v : Pagination.t)
| setSearchText (v : option string)
| setInputText (v : option string)
| setTypesFilter (v : list string)
| setActionTypesFilter (v : list string)
| setAlertFlyoutVisibility (v : bool)
| setAlertTypesState (v : AlertTypeState.t)
| setAlertsState (v : AlertState.t)
| setAlertsToDelete (v : list string)
| addDanger (title : string).

(** An asynchronous function body.  [Call c k] performs [c] and goes on with
    [k]; an [Await...] node invokes the API function and suspends, with the
    continuation for the resolved promise (the rest of the [try] block) and
    for the rejected one (the [catch] block). *)
Inductive Prog :=
| Return
| Call (c : Cmd) (k : Prog)
| AwaitLoadAlerts (req : LoadAlerts.request)
    (resolved : LoadAlerts.response → Prog) (rejected : Prog)
| AwaitLoadAlertTypes (resolved : list AlertType.t → Prog) (rejected : Prog)
| AwaitLoadActionTypes (resolved : list ActionType.t → Prog) (rejected : Prog).

Notation "c ;; k" := (Call c k) (at level 100, k at level 200, right associativity).

(** [await p; q] *)
Fixpoint andThen (p q : Prog) : Prog :=
  match p with
  | Return => q
  | Call c k => Call c (andThen k q)
  | AwaitLoadAlerts req resolved rejected =>
      AwaitLoadAlerts req (fun r => andThen (resolved r) q) (andThen rejected q)
  | AwaitLoadAlertTypes resolved rejected =>
      AwaitLoadAlertTypes (fun r => andThen (resolved r) q) (andThen rejected q)
  | AwaitLoadActionTypes resolved rejected =>
      AwaitLoadActionTypes (fun r => andThen (resolved r) q) (andThen rejected q)
  end.

(** The effect of a setter call on the hook state. *)
Definition update (c : Cmd) (s : State) : State :=
  match c with
  | setActionTypes v =>
      mkState v (selectedIds s) (isPerformingAction s) (page s) (searchText s)
         (inputText s) (typesFilter s) (actionTypesFilter s)
         (alertFlyoutVisible s) (alertTypesState s) (alertsState s)
         (alertsToDelete s)
  | setSelectedIds v =>
      mkState (actionTypes s) v (isPerformingAction s) (page s) (searchText s)
         (inputText s) (typesFilter s) (actionTypesFilter s)
         (alertFlyoutVisible s) (alertTypesState s) (alertsState s)
         (alertsToDelete s)
  | setIsPerformingAction v =>
      mkState (actionTypes s) (selectedIds s) v (page s) (searchText s)
         (inputText s) (typesFilter s) (actionTypesFilter s)
         (alertFlyoutVisible s) (alertTypesState s) (alertsState s)
         (alertsToDelete s)
  | setPage v =>
      mkState (actionTypes s) (selectedIds s) (isPerformingAction s) v
         (searchText s) (inputText s) (typesFilter s) (actionTypesFilter s)
         (alertFlyoutVisible s) (alertTypesState s) (alertsState s)
         (alertsToDelete s)
  | setSearchText v =>
      mkState (actionTypes s) (selectedIds s) (isPerformingAction s) (page s)
         v (inputText s) (typesFilter s) (actionTypesFilter s)
         (alertFlyoutVisible s) (alertTypesState s) (alertsState s)
         (alertsToDelete s)
  | setInputText v =>
      mkState (actionTypes s) (selectedIds s) (isPerformingAction s) (page s)
         (searchText s) v (typesFilter s) (actionTypesFilter s)
         (alertFlyoutVisible s) (alertTypesState s) (alertsState s)
         (alertsToDelete s)
  | setTypesFilter v =>
      mkState (actionTypes s) (selectedIds s) (isPerformingAction s) (page s)
         (searchText s) (inputText s) v (actionTypesFilter s)
         (alertFlyoutVisible s) (alertTypesState s) (alertsState s)
         (alertsToDelete s)
  | setActionTypesFilter v =>
      mkState (actionTypes s) (selectedIds s) (isPerformingAction s) (page s)
         (searchText s) (inputText s) (typesFilter s) v (alertFlyoutVisible s)
         (alertTypesState s) (alertsState s) (alertsToDelete s)
  | setAlertFlyoutVisibility v =>
      mkState (actionTypes s) (selectedIds s) (isPerformingAction s) (page s)
         (searchText s) (inputText s) (typesFilter s) (actionTypesFilter s) v
         (alertTypesState s) (alertsState s) (alertsToDelete s)
  | setAlertTypesState v =>
      mkState (actionTypes s) (selectedIds s) (isPerformingAction s) (page s)
         (searchText s) (inputText s) (typesFilter s) (actionTypesFilter s)
         (alertFlyoutVisible s) v (alertsState s) (alertsToDelete s)
  | setAlertsState v =>
      mkState (actionTypes s) (selectedIds s) (isPerformingAction s) (page s)
         (searchText s) (inputText s) (typesFilter s) (actionTypesFilter s)
         (alertFlyoutVisible s) (alertTypesState s) v (alertsToDelete s)
  | setAlertsToDelete v =>
      mkState (actionTypes s) (selectedIds s) (isPerformingAction s) (page s)
         (searchText s) (inputText s) (typesFilter s) (actionTypesFilter s)
         (alertFlyoutVisible s) (alertTypesState s) (alertsState s) v
  | addDanger _ => s
  end.

(** The first effect of the component has the dependency list
    [[alertTypesState, page, searchText, typesFilter, actionTypesFilter]];
    React compares each entry with [Object.is].  Every object or array the
    component passes to a setter is a fresh reference, so these setters always
    change the dependency; [searchText] is a primitive, compared by value. *)
Definition changesDependency (s : State) (c : Cmd) : bool :=
  match c with
  | setAlertTypesState _ | setPage _ | setTypesFilter _ | setActionTypesFilter _ => true
  | setSearchText v => negb (bool_decide (v = searchText s))
  | _ => false
  end.

(** ** The mounted component

    The hook state, whether the alerts effect is scheduled for the next
    commit, the suspended [await]s with their continuations, and what the
    collaborators have seen: the [loadAlerts] calls and the danger toasts, in
    the order they were made. *)
Record World := mkWorld {
  state : State;
  alertsEffectScheduled : bool;
  pendingLoadAlerts : list (LoadAlerts.request * (LoadAlerts.response → Prog) * Prog);
  pendingLoadAlertTypes : list ((list AlertType.t → Prog) * Prog);
  pendingLoadActionTypes : list ((list ActionType.t → Prog) * Prog);
  loadAlertsCalls : list LoadAlerts.request;
  dangerToasts : list string
}.

Definition call (c : Cmd) (w : World) : World :=
  mkWorld (update c (state w))
    (alertsEffectScheduled w || changesDependency (state w) c)
    (pendingLoadAlerts w) (pendingLoadAlertTypes w) (pendingLoadActionTypes w)
    (loadAlertsCalls w)
    (match c with addDanger title => dangerToasts w ++ [title] | _ => dangerToasts w end).

(** Runs a program up to its first [await]. *)
Fixpoint exec (p : Prog) (w : World) : World :=
  match p with
  | Return => w
  | Call c k => exec k (call c w)
  | AwaitLoadAlerts req resolved rejected =>
      mkWorld (state w) (alertsEffectScheduled w)
        (pendingLoadAlerts w ++ [(req, resolved, rejected)])
        (pendingLoadAlertTypes w) (pendingLoadActionTypes w)
        (loadAlertsCalls w ++ [req]) (dangerToasts w)
  | AwaitLoadAlertTypes resolved rejected =>
      mkWorld (state w) (alertsEffectScheduled w) (pendingLoadAlerts w)
        (pendingLoadAlertTypes w ++ [(resolved, rejected)])
        (pendingLoadActionTypes w) (loadAlertsCalls w) (dangerToasts w)
  | AwaitLoadActionTypes resolved rejected =>
      mkWorld (state w) (alertsEffectScheduled w) (pendingLoadAlerts w)
        (pendingLoadAlertTypes w)
        (pendingLoadActionTypes w ++ [(resolved, rejected)])
        (loadAlertsCalls w) (dangerToasts w)
  end.

(** ** Pure helpers *)

Definition filterAlertsById (alerts : list Alert.t) (ids : list string) : list Alert.t :=
  List.filter (fun alert => includes ids (Alert.id alert)) alerts.

Section AlertsList.

(** Collaborators imported from modules that are not part of this file. *)
Variable ALERTS_FEATURE_ID : string.
Variable DEFAULT_SEARCH_PAGE_SIZE : Z.
Variable hasAllPrivilege : Alert.t → option AlertType.t → bool.
Variable actionTypeRegistryHas : string → bool.
(** [hasExecuteActionsCapability(capabilities)] *)
Variable canExecuteActions : bool.

Definition convertAlertToTableItem
    (alertTypesIndex : AlertTypeIndex) (canExecute : bool) (alert : Alert.t)
    : AlertTableItem.t :=
  {| AlertTableItem.alert := alert;
     AlertTableItem.actionsText := length (Alert.actions alert);
     AlertTableItem.tagsText := String.concat ", " (Alert.tags alert);
     AlertTableItem.alertType :=
       match alertTypesIndex !! Alert.alertTypeId alert with
       | Some alertType => AlertType.name alertType
       | None => Alert.alertTypeId alert
       end;
     AlertTableItem.isEditable :=
       hasAllPrivilege alert (alertTypesIndex !! Alert.alertTypeId alert) &&
       (canExecute || (negb canExecute && negb (truthy (length (Alert.actions alert))))) |}.

Definition convertAlertsToTableItems
    (alerts : list Alert.t) (alertTypesIndex : AlertTypeIndex) (canExecute : bool)
    : list AlertTableItem.t :=
  List.map (convertAlertToTableItem alertTypesIndex canExecute) alerts.

(** *** [loadAlertsData], as defined by the render whose state is [r] *)

Definition loadAlertsRequest (r : State) : LoadAlerts.request :=
  {| LoadAlerts.page := page r;
     LoadAlerts.searchText := searchText r;
     LoadAlerts.typesFilter := typesFilter r;
     LoadAlerts.actionTypesFilter := actionTypesFilter r |}.

(** The rest of the [try] block, after the [await]. *)
Definition loadAlertsData_resolved (r : State) (alertsResponse : LoadAlerts.response) : Prog :=
  setAlertsState
    {| AlertState.isLoading := false;
       AlertState.data := LoadAlerts.data alertsResponse;
       AlertState.totalItemCount := LoadAlerts.total alertsResponse |} ;;
  if negb (truthy (length (LoadAlerts.data alertsResponse)))
     && (0 <? Pagination.index (page r))%Z
  then setPage {| Pagination.index := 0; Pagination.size := Pagination.size (page r) |} ;;
       Return
  else Return.

(** The [catch] block. *)
Definition loadAlertsData_rejected (r : State) : Prog :=
  addDanger "Unable to load alerts" ;;
  setAlertsState (AlertState.with_isLoading (alertsState r) false) ;;
  Return.

Definition loadAlertsData (r : State) : Prog :=
  let hasAnyAuthorizedAlertType :=
    (0 <? size (AlertTypeState.data (alertTypesState r)))%nat in
  if hasAnyAuthorizedAlertType then
    setAlertsState (AlertState.with_isLoading (alertsState r) true) ;;
    AwaitLoadAlerts (loadAlertsRequest r)
      (loadAlertsData_resolved r) (loadAlertsData_rejected r)
  else Return.

(** *** The two reference-data effects, run once at mount *)

Definition loadAlertTypes_resolved (alertTypes : list AlertType.t) : Prog :=
  let index : AlertTypeIndex :=
    foldl (fun index alertType => <[AlertType.id alertType := alertType]> index)
          ∅ alertTypes in
  setAlertTypesState
    {| AlertTypeState.isLoading := false;
       AlertTypeState.data := index;
       AlertTypeState.isInitialized := true |} ;;
  Return.

Definition loadAlertTypes_rejected (r : State) : Prog :=
  addDanger "Unable to load alert types" ;;
  setAlertTypesState (AlertTypeState.with_isLoading (alertTypesState r) false) ;;
  Return.

Definition alertTypesEffect (r : State) : Prog :=
  setAlertTypesState (AlertTypeState.with_isLoading (alertTypesState r) true) ;;
  AwaitLoadAlertTypes loadAlertTypes_resolved (loadAlertTypes_rejected r).

Definition loadActionTypes_resolved (result : list ActionType.t) : Prog :=
  setActionTypes
    (List.filter (fun actionType => actionTypeRegistryHas (ActionType.id actionType))
                 result) ;;
  Return.

Definition loadActionTypes_rejected : Prog :=
  addDanger "Unable to load action types" ;; Return.

Definition actionTypesEffect : Prog :=
  AwaitLoadActionTypes loadActionTypes_resolved loadActionTypes_rejected.

(** *** Events and their handlers *)

Inductive Event :=
(* promises settling; [n] picks the suspended call, [None] is a rejection *)
| LoadAlertTypesSettled (n : nat) (result : option (list AlertType.t))
| LoadActionTypesSettled (n : nat) (result : option (list ActionType.t))
| LoadAlertsSettled (n : nat) (result : option LoadAlerts.response)
(* the search field *)
| SearchFieldChange (value : string)
| SearchFieldKeyUp (keyCode : Z)
(* the toolbar *)
| TypeFilterChange (types : list string)
| ActionTypeFilterChange (ids : list string)
| CreateAlertClick
(* the table *)
| TableChange (changedPage : Pagination.t)
| SelectionChange (updatedSelectedItemsList : list AlertTableItem.t)
(* callbacks handed to the row actions and to the quick-edit buttons *)
| AlertChanged
| PerformingAction
| ActionPerformed
| AlertsToDelete (ids : list string)
(* callbacks handed to the delete confirmation *)
| Deleted (deleted : list string)
| DeleteErrors
| DeleteCancel
| SetIsLoadingState (isLoading : bool)
(* callbacks handed to the add-alert flyout *)
| SetAddFlyoutVisibility (visible : bool)
| ReloadAlerts.

(** The functions that the render whose state is [r] attaches to a user or
    collaborator event, each run to its first [await] in turn. *)
Definition handle (r : State) (e : Event) : list Prog :=
  match e with
  | SearchFieldChange value => [setInputText (Some value) ;; Return]
  | SearchFieldKeyUp keyCode =>
      [if (keyCode =? ENTER_KEY)%Z then setSearchText (inputText r) ;; Return else Return]
  | TypeFilterChange types => [setTypesFilter types ;; Return]
  | ActionTypeFilterChange ids => [setActionTypesFilter ids ;; Return]
  | CreateAlertClick => [setAlertFlyoutVisibility true ;; Return]
  | TableChange changedPage => [setPage changedPage ;; Return]
  | SelectionChange updatedSelectedItemsList =>
      [setSelectedIds (List.map AlertTableItem.id updatedSelectedItemsList) ;; Return]
  | AlertChanged => [loadAlertsData r]
  | PerformingAction => [setIsPerformingAction true ;; Return]
  | ActionPerformed => [loadAlertsData r; setIsPerformingAction false ;; Return]
  | AlertsToDelete ids => [setAlertsToDelete ids ;; Return]
  | Deleted _ => [setAlertsToDelete [] ;; setSelectedIds [] ;; loadAlertsData r]
  | DeleteErrors => [andThen (loadAlertsData r) (setAlertsToDelete [] ;; Return)]
  | DeleteCancel => [setAlertsToDelete [] ;; Return]
  | SetIsLoadingState isLoading =>
      [setAlertsState (AlertState.with_isLoading (alertsState r) isLoading) ;; Return]
  | SetAddFlyoutVisibility visible => [setAlertFlyoutVisibility visible ;; Return]
  | ReloadAlerts => [loadAlertsData r]
  | LoadAlertTypesSettled _ _ | LoadActionTypesSettled _ _ | LoadAlertsSettled _ _ => []
  end.

(** The continuation of a settled promise. *)
Definition settle {A} (k : (A → Prog) * Prog) (result : option A) : Prog :=
  match result with
  | Some value => k.1 value
  | None => k.2
  end.

(** After the commit: the alerts effect, [useEffect(() => { loadAlertsData() }, deps)],
    runs if a dependency changed, with the [loadAlertsData] of the new render. *)
Definition flushEffects (w : World) : World :=
  if alertsEffectScheduled w then
    exec (loadAlertsData (state w))
      (mkWorld (state w) false (pendingLoadAlerts w) (pendingLoadAlertTypes w)
         (pendingLoadActionTypes w) (loadAlertsCalls w) (dangerToasts w))
  else w.

Definition dispatch (w : World) (e : Event) : World :=
  match e with
  | LoadAlertsSettled n result =>
      match pendingLoadAlerts w !! n with
      | Some (req, resolved, rejected) =>
          exec (settle (resolved, rejected) result)
            (mkWorld (state w) (alertsEffectScheduled w)
               (delete n (pendingLoadAlerts w)) (pendingLoadAlertTypes w)
               (pendingLoadActionTypes w) (loadAlertsCalls w) (dangerToasts w))
      | None => w
      end
  | LoadAlertTypesSettled n result =>
      match pendingLoadAlertTypes w !! n with
      | Some k =>
          exec (settle k result)
            (mkWorld (state w) (alertsEffectScheduled w) (pendingLoadAlerts w)
               (delete n (pendingLoadAlertTypes w)) (pendingLoadActionTypes w)
               (loadAlertsCalls w) (dangerToasts w))
      | None => w
      end
  | LoadActionTypesSettled n result =>
      match pendingLoadActionTypes w !! n with
      | Some k =>
          exec (settle k result)
            (mkWorld (state w) (alertsEffectScheduled w) (pendingLoadAlerts w)
               (pendingLoadAlertTypes w) (delete n (pendingLoadActionTypes w))
               (loadAlertsCalls w) (dangerToasts w))
      | None => w
      end
  | _ => foldl (fun w p => exec p w) w (handle (state w) e)
  end.

Definition step (w : World) (e : Event) : World := flushEffects (dispatch w e).

Definition run (w : World) (events : list Event) : World := foldl step w events.

(** *** Mount *)

Definition initialState : State :=
  {| actionTypes := [];
     selectedIds := [];
     isPerformingAction := false;
     page := {| Pagination.index := 0; Pagination.size := DEFAULT_SEARCH_PAGE_SIZE |};
     searchText := None;
     inputText := None;
     typesFilter := [];
     actionTypesFilter := [];
     alertFlyoutVisible := false;
     alertTypesState :=
       {| AlertTypeState.isLoading := false;
          AlertTypeState.isInitialized := false;
          AlertTypeState.data := ∅ |};
     alertsState :=
       {| AlertState.isLoading := false;
          AlertState.data := [];
          AlertState.totalItemCount := 0 |};
     alertsToDelete := [] |}.

(** The three effects run after the first render, in the order of their
    [useEffect] calls, each with the closure of that render. *)
Definition mount : World :=
  flushEffects
    (exec actionTypesEffect
       (exec (alertTypesEffect initialState)
          (exec (loadAlertsData initialState)
             (mkWorld initialState false [] [] [] [] [])))).

(** *** Render *)

(** The elements pushed on [toolsRight], without their props. *)
Inductive Tool := TypeFilter | ActionTypeFilter | CreateAlertButton.

(** The [table] fragment: the bulk-operation popover when it is there (with
    the [selectedItems] it is given), the tools on the right of the search
    field, and the props of the [EuiBasicTable]. *)
Record Table := {
  bulkOperationPopover : option (list AlertTableItem.t);
  toolsRight : list Tool;
  loading : bool;
  items : list AlertTableItem.t;
  pageIndex : Z;
  pageSize : Z;
  pagination_totalItemCount : Z
}.

Inductive View :=
| TableView (table : Table)
| LoadingSpinner
| EmptyPrompt
| noPermissionPrompt.

(** [[...alertTypesState.data.values()]]; the component only asks whether
    some value satisfies a test, which does not depend on their order. *)
Definition authorizedAlertTypes (s : State) : list AlertType.t :=
  (map_to_list (AlertTypeState.data (alertTypesState s))).*2.

Definition authorizedToCreateAnyAlerts (s : State) : bool :=
  existsb
    (fun alertType =>
       match AlertType.authorizedConsumers alertType !! ALERTS_FEATURE_ID with
       | Some privileges => ConsumerPrivileges.all privileges
       | None => false
       end)
    (authorizedAlertTypes s).

Definition authorizedToModifySelectedAlerts (s : State) : bool :=
  if truthy (length (selectedIds s)) then
    forallb
      (fun selectedAlert =>
         hasAllPrivilege selectedAlert
           (AlertTypeState.data (alertTypesState s) !! Alert.alertTypeId selectedAlert))
      (filterAlertsById (AlertState.data (alertsState s)) (selectedIds s))
  else false.

Definition table (s : State) : Table :=
  {| bulkOperationPopover :=
       if (0 <? length (selectedIds s))%nat && authorizedToModifySelectedAlerts s then
         Some (convertAlertsToTableItems
                 (filterAlertsById (AlertState.data (alertsState s)) (selectedIds s))
                 (AlertTypeState.data (alertTypesState s))
                 canExecuteActions)
       else None;
     toolsRight :=
       [TypeFilter; ActionTypeFilter] ++
       (if authorizedToCreateAnyAlerts s then [CreateAlertButton] else []);
     loading :=
       AlertState.isLoading (alertsState s)
       || AlertTypeState.isLoading (alertTypesState s)
       || isPerformingAction s;
     items :=
       if negb (AlertTypeState.isInitialized (alertTypesState s)) then []
       else convertAlertsToTableItems (AlertState.data (alertsState s))
              (AlertTypeState.data (alertTypesState s)) canExecuteActions;
     pageIndex := Pagination.index (page s);
     pageSize := Pagination.size (page s);
     pagination_totalItemCount :=
       if negb (AlertTypeState.isInitialized (alertTypesState s)) then 0
       else AlertState.totalItemCount (alertsState s) |}.

Definition loadedItems (s : State) : list AlertTableItem.t :=
  convertAlertsToTableItems (AlertState.data (alertsState s))
    (AlertTypeState.data (alertTypesState s)) canExecuteActions.

Definition isFilterApplied (s : State) : bool :=
  negb (isEmpty (searchText s) && isEmpty (typesFilter s) && isEmpty (actionTypesFilter s)).

(** The view chosen by the conditional chain of the returned section (which
    also holds, in every state, the delete confirmation and the add-alert
    flyout). *)
Definition render (s : State) : View :=
  if truthy (length (loadedItems s)) || isFilterApplied s then TableView (table s)
  else if AlertTypeState.isLoading (alertTypesState s) || AlertState.isLoading (alertsState s)
  then LoadingSpinner
  else if authorizedToCreateAnyAlerts s then EmptyPrompt
  else noPermissionPrompt.

(** *** Vocabulary of the statements below *)

(** The first test of the chain: some item is loaded or some filter is
    applied. *)
Definition tableShown (s : State) : Prop :=
  loadedItems s ≠ []
  ∨ (∃ text, searchText s = Some text ∧ text ≠ "")
  ∨ typesFilter s ≠ []
  ∨ actionTypesFilter s ≠ [].

Definition anyLoaderRunning (s : State) : Prop :=
  AlertTypeState.isLoading (alertTypesState s) = true
  ∨ AlertState.isLoading (alertsState s) = true.

(** Some alert type of the index has [authorizedConsumers[ALERTS_FEATURE_ID].all]. *)
Definition mayCreateSomeAlertType (alertTypesIndex : AlertTypeIndex) : Prop :=
  ∃ typeId alertType privileges,
    alertTypesIndex !! typeId = Some alertType
    ∧ AlertType.authorizedConsumers alertType !! ALERTS_FEATURE_ID = Some privileges
    ∧ ConsumerPrivileges.all privileges = true.

(** The bulk-operation popover is part of what the component returns. *)
Definition bulkEditRendered (s : State) : Prop :=
  ∃ table, render s = TableView table ∧ is_Some (bulkOperationPopover table).

(** Every loaded alert whose id is selected passes [hasAllPrivilege] against
    the entry of its type in the index. *)
Definition selectedAlertsAuthorized (s : State) : Prop :=
  ∀ alert,
    alert ∈ AlertState.data (alertsState s) →
    Alert.id alert ∈ selectedIds s →
    hasAllPrivilege alert
      (AlertTypeState.data (alertTypesState s) !! Alert.alertTypeId alert) = true.

(** The empty state: nothing committed in the search field, no filter, no
    alert, no loader running. *)
Definition emptyState (s : State) : Prop :=
  (searchText s = None ∨ searchText s = Some "")
  ∧ typesFilter s = []
  ∧ actionTypesFilter s = []
  ∧ AlertState.data (alertsState s) = []
  ∧ AlertTypeState.isLoading (alertTypesState s) = false
  ∧ AlertState.isLoading (alertsState s) = false.

(** A suspended [loadAlerts] call made by the [loadAlertsData] of the render
    whose state is [r], possibly awaited by a caller that goes on with
    [rest]. *)
Definition suspendedLoadAlertsData
    (r : State) (rest : Prog)
    (k : LoadAlerts.request * (LoadAlerts.response → Prog) * Prog) : Prop :=
  k.1.1 = loadAlertsRequest r
  ∧ (∀ alertsResponse,
       k.1.2 alertsResponse = andThen (loadAlertsData_resolved r alertsResponse) rest)
  ∧ k.2 = andThen (loadAlertsData_rejected r) rest.

(** What a caller that awaits [loadAlertsData] goes on with: nothing, or the
    clearing of the pending deletions. *)
Definition quiet (rest : Prog) : Prop :=
  rest = Return ∨ rest = (setAlertsToDelete [] ;; Return).

Definition wellSuspended
    (k : LoadAlerts.request * (LoadAlerts.response → Prog) * Prog) : Prop :=
  ∃ r rest, suspendedLoadAlertsData r rest k ∧ quiet rest.

(** The suspended calls are those the component makes, and [loadAlerts] is
    only awaited once the alert types have settled with a non-empty index. *)
Definition Consistent (w : World) : Prop :=
  Forall wellSuspended (pendingLoadAlerts w)
  ∧ Forall (fun k => k = (loadActionTypes_resolved, loadActionTypes_rejected))
      (pendingLoadActionTypes w)
  ∧ ((pendingLoadAlertTypes w =
        [(loadAlertTypes_resolved, loadAlertTypes_rejected initialState)]
      ∧ AlertTypeState.data (alertTypesState (state w)) = ∅
      ∧ pendingLoadAlerts w = [])
     ∨ (pendingLoadAlertTypes w = []
        ∧ (pendingLoadAlerts w = []
           ∨ AlertTypeState.data (alertTypesState (state w)) ≠ ∅))).

(** The invariant of the mounted component between two events. *)
Definition Inv (w : World) : Prop :=
  alertsEffectScheduled w = false ∧ Consistent w.

(** Programs that keep [Consistent] when run in a world whose alert-type
    index is [alertTypesIndex]. *)
Inductive Tame (alertTypesIndex : AlertTypeIndex) : Prog → Prop :=
| Tame_Return : Tame alertTypesIndex Return
| Tame_Call c k :
    (∀ v, c ≠ setAlertTypesState v) →
    Tame alertTypesIndex k →
    Tame alertTypesIndex (Call c k)
| Tame_Await req resolved rejected :
    alertTypesIndex ≠ ∅ →
    wellSuspended (req, resolved, rejected) →
    Tame alertTypesIndex (AwaitLoadAlerts req resolved rejected).

End AlertsList.

(** ** The search field, in the words of the specification

    A keystroke either changes the content of the field or is a key release
    with a key code.  [committedAfter] and [bufferAfter] say what the
    committed search text and the input buffer are after a sequence of
    keystrokes: only Enter commits, and it commits the buffer. *)

Inductive Keystroke :=
| Typed (value : string)
| KeyUp (keyCode : Z).

Definition keystrokeEvent (k : Keystroke) : Event :=
  match k with
  | Typed value => SearchFieldChange value
  | KeyUp keyCode => SearchFieldKeyUp keyCode
  end.

Fixpoint bufferAfter (buffer : option string) (keys : list Keystroke) : option string :=
  match keys with
  | [] => buffer
  | Typed value :: keys => bufferAfter (Some value) keys
  | KeyUp _ :: keys => bufferAfter buffer keys
  end.

Fixpoint committedAfter (buffer committed : option string) (keys : list Keystroke)
    : option string :=
  match keys with
  | [] => committed
  | Typed value :: keys => committedAfter (Some value) committed keys
  | KeyUp keyCode :: keys =>
      committedAfter buffer (if decide (keyCode = 13%Z) then buffer else committed) keys
  end.

(** The setter calls a program makes before its first [await]. *)
Fixpoint calls (p : Prog) : list Cmd :=
  match p with
  | Call c k => c :: calls k
  | _ => []
  end.

(** ** A concrete deployment, for the examples

    The feature id is ["alerts"], the page size is 10, every action type is
    registered, and a viewer has all privileges on an alert when the type
    authorizes the alert's consumer with [all]. *)
Module Sample.

Definition hasAllPrivilege (alert : Alert.t) (alertType : option AlertType.t) : bool :=
  match alertType with
  | Some alertType =>
      match AlertType.authorizedConsumers alertType !! Alert.consumer alert with
      | Some privileges => ConsumerPrivileges.all privileges
      | None => false
      end
  | None => false
  end.

Definition threshold : AlertType.t :=
  {| AlertType.id := "threshold";
     AlertType.name := "Index threshold";
     AlertType.authorizedConsumers :=
       {[ "alerts" := {| ConsumerPrivileges.read := true; ConsumerPrivileges.all := true |} ]} |}.

Definition readOnly : AlertType.t :=
  {| AlertType.id := "uptime";
     AlertType.name := "Uptime monitor";
     AlertType.authorizedConsumers :=
       {[ "alerts" := {| ConsumerPrivileges.read := true; ConsumerPrivileges.all := false |} ]} |}.

Definition email : AlertAction.t :=
  {| AlertAction.actionTypeId := ".email"; AlertAction.group := "default" |}.

Definition cpu : Alert.t :=
  {| Alert.id := "a1"; Alert.name := "cpu"; Alert.tags := ["prod"; "infra"];
     Alert.actions := [email]; Alert.alertTypeId := "threshold";
     Alert.consumer := "alerts"; Alert.interval := "1m" |}.

Definition disk : Alert.t :=
  {| Alert.id := "a2"; Alert.name := "disk"; Alert.tags := [];
     Alert.actions := []; Alert.alertTypeId := "threshold";
     Alert.consumer := "alerts"; Alert.interval := "5m" |}.

Definition ping : Alert.t :=
  {| Alert.id := "a3"; Alert.name := "ping"; Alert.tags := ["edge"];
     Alert.actions := []; Alert.alertTypeId := "uptime";
     Alert.consumer := "alerts"; Alert.interval := "10s" |}.

Definition mounted : World := mount 10 (fun _ => true).

Definition item (alertTypesIndex : AlertTypeIndex) (alert : Alert.t) : AlertTableItem.t :=
  convertAlertToTableItem hasAllPrivilege alertTypesIndex true alert.

Definition response (alerts : list Alert.t) : LoadAlerts.response :=
  {| LoadAlerts.data := alerts; LoadAlerts.total := Z.of_nat (length alerts) |}.

(** The types load, the first page loads with one alert, the viewer selects
    it; then the alert is changed from its row menu and the reload finds no
    alert any more. *)
Definition selectionOutlivesAlerts : list Event :=
  [ LoadAlertTypesSettled 0 (Some [threshold]);
    LoadAlertsSettled 0 (Some (response [disk]));
    SelectionChange [item {[ "threshold" := threshold ]} disk];
    AlertChanged;
    LoadAlertsSettled 0 (Some (response [])) ].

(** Two alerts are selected and sent to the delete confirmation, which
    reports errors; the reload finds that both are gone. *)
Definition deleteReportsErrors : list Event :=
  [ LoadAlertTypesSettled 0 (Some [threshold]);
    LoadAlertsSettled 0 (Some (response [cpu; disk]));
    SelectionChange [item {[ "threshold" := threshold ]} cpu;
                     item {[ "threshold" := threshold ]} disk];
    AlertsToDelete ["a1"; "a2"];
    DeleteErrors;
    LoadAlertsSettled 0 (Some (response [])) ].

(** The viewer goes to the fourth page while the types are loaded. *)
Definition toFourthPage : list Event :=
  [ LoadAlertTypesSettled 0 (Some [threshold; readOnly]);
    LoadAlertsSettled 0 (Some (response [cpu; disk]));
    TableChange {| Pagination.index := 3; Pagination.size := 10 |} ].

(** The types load and the first page loads with two alerts. *)
Definition firstPageLoaded : list Event :=
  [ LoadAlertTypesSettled 0 (Some [threshold; readOnly]);
    LoadAlertsSettled 0 (Some (response [cpu; disk])) ].

(** The viewer selects an alert and goes to the next page, which holds
    another alert. *)
Definition selectionOnAnotherPage : list Event :=
  [ LoadAlertTypesSettled 0 (Some [threshold; readOnly]);
    LoadAlertsSettled 0 (Some (response [disk]));
    SelectionChange [item {[ "threshold" := threshold ]} disk];
    TableChange {| Pagination.index := 1; Pagination.size := 10 |};
    LoadAlertsSettled 0 (Some (response [ping])) ].

(** A viewer who may only read: the one type loads, and there is no alert. *)
Definition readOnlyViewer : list Event :=
  [ LoadAlertTypesSettled 0 (Some [readOnly]);
    LoadAlertsSettled 0 (Some (response [])) ].

(** The state of the render that follows the change to the fourth page, the
    one whose [loadAlertsData] the alerts effect runs. *)
Definition fourthPageRender : State :=
  state (dispatch (run mounted firstPageLoaded)
           (TableChange {| Pagination.index := 3; Pagination.size := 10 |})).

(** The alert types are still loading when a reload is asked for and the
    viewer changes page. *)
Definition whileTypesLoad : list Event :=
  [ ReloadAlerts; TableChange {| Pagination.index := 1; Pagination.size := 10 |} ].

(** The viewer goes to the second page before the first page has come
    back: two [loadAlerts] calls are pending. *)
Definition twoPagesRequested : list Event :=
  [ LoadAlertTypesSettled 0 (Some [threshold; readOnly]);
    TableChange {| Pagination.index := 1; Pagination.size := 10 |} ].

(** The first page loads with two alerts and the viewer selects the second
    one. *)
Definition oneSelected : list Event :=
  [ LoadAlertTypesSettled 0 (Some [threshold; readOnly]);
    LoadAlertsSettled 0 (Some (response [cpu; disk]));
    SelectionChange [item {[ "threshold" := threshold ]} disk] ].

(** The second page has come back while the call for the first page is
    still pending. *)
Definition secondPageLoadedFirst : list Event :=
  twoPagesRequested ++ [ LoadAlertsSettled 1 (Some (response [ping])) ].

(** A reload of the first page, and what the viewer does before it fails. *)
Definition whileReloading : list Event :=
  [ SearchFieldChange "cpu"; PerformingAction; SetIsLoadingState false ].

End Sample.

(** ** The alert-type index

    The loop [for (const alertType of alertTypes) index.set(alertType.id, alertType)]
    of the alert-type loader, from an empty map. *)
Definition alertTypesIndexOf (alertTypes : list AlertType.t) : AlertTypeIndex :=
  foldl (fun index alertType => <[AlertType.id alertType := alertType]> index)
        ∅ alertTypes.


(** ** What the mounted component keeps in step with its alert types

    While the alert types are not initialized the index is empty; while the
    index is empty [loadAlerts] has not been called and no alert is held; and
    once the index holds an alert type the last [loadAlerts] request is the
    one for the query (page, committed search text, filters) that the
    component holds. *)
Definition Synchronized (w : World) : Prop :=
  (AlertTypeState.isInitialized (alertTypesState (state w)) = false →
   AlertTypeState.data (alertTypesState (state w)) = ∅)
  ∧ (AlertTypeState.data (alertTypesState (state w)) = ∅ →
     loadAlertsCalls w = []
     ∧ AlertState.data (alertsState (state w)) = []
     ∧ AlertState.totalItemCount (alertsState (state w)) = 0%Z)
  ∧ (AlertTypeState.data (alertTypesState (state w)) ≠ ∅ →
     last (loadAlertsCalls w) = Some (loadAlertsRequest (state w))).


(** ** When an event makes the component call [loadAlerts]

    Read off the handlers, the continuations and the dependency list of the
    alerts effect: the reload callbacks and the changes of page and filters
    call it when the index holds an alert type; Enter calls it when, besides,
    it changes the committed search text; the alert types arriving call it
    when some arrive; an empty page that was not the first calls it for
    page 0; nothing else does. *)
Definition refetches (w : World) (e : Event) : bool :=
  let hasAnyAuthorizedAlertType :=
    negb (bool_decide (AlertTypeState.data (alertTypesState (state w)) = ∅)) in
  match e with
  | LoadAlertTypesSettled n (Some alertTypes) =>
      match pendingLoadAlertTypes w !! n with
      | Some _ => negb (bool_decide (alertTypes = []))
      | None => false
      end
  | LoadAlertsSettled n (Some alertsResponse) =>
      match pendingLoadAlerts w !! n with
      | Some (req, _, _) =>
          negb (truthy (length (LoadAlerts.data alertsResponse)))
          && (0 <? Pagination.index (LoadAlerts.page req))%Z
      | None => false
      end
  | SearchFieldKeyUp keyCode =>
      (keyCode =? ENTER_KEY)%Z
      && negb (bool_decide (inputText (state w) = searchText (state w)))
      && hasAnyAuthorizedAlertType
  | TypeFilterChange _ | ActionTypeFilterChange _ | TableChange _
  | AlertChanged | ActionPerformed | Deleted _ | DeleteErrors | ReloadAlerts =>
      hasAnyAuthorizedAlertType
  | _ => false
  end.


(** ** Events that apply a [loadAlerts] response or failure *)
Definition settlesLoadAlerts (e : Event) : bool :=
  match e with
  | LoadAlertsSettled _ _ => true
  | _ => false
  end.

(** * Properties *)

Section Properties.

Local Set Default Proof Using "Type".

Variable ALERTS_FEATURE_ID : string.
Variable DEFAULT_SEARCH_PAGE_SIZE : Z.
Variable hasAllPrivilege : Alert.t → option AlertType.t → bool.
Variable actionTypeRegistryHas : string → bool.
Variable canExecuteActions : bool.

Local Abbreviation render := (render ALERTS_FEATURE_ID hasAllPrivilege canExecuteActions).
Local Abbreviation table := (table ALERTS_FEATURE_ID hasAllPrivilege canExecuteActions).
Local Abbreviation loadedItems := (loadedItems hasAllPrivilege canExecuteActions).
Local Abbreviation tableShown := (tableShown hasAllPrivilege canExecuteActions).
Local Abbreviation bulkEditRendered :=
  (bulkEditRendered ALERTS_FEATURE_ID hasAllPrivilege canExecuteActions).
Local Abbreviation authorizedToCreateAnyAlerts := (authorizedToCreateAnyAlerts ALERTS_FEATURE_ID).
Local Abbreviation mayCreateSomeAlertType := (mayCreateSomeAlertType ALERTS_FEATURE_ID).
Local Abbreviation authorizedToModifySelectedAlerts :=
  (authorizedToModifySelectedAlerts hasAllPrivilege).
Local Abbreviation selectedAlertsAuthorized := (selectedAlertsAuthorized hasAllPrivilege).
Local Abbreviation convertAlertsToTableItems := (convertAlertsToTableItems hasAllPrivilege).
Local Abbreviation convertAlertToTableItem := (convertAlertToTableItem hasAllPrivilege).
Local Abbreviation initialState := (initialState DEFAULT_SEARCH_PAGE_SIZE).
Local Abbreviation mount := (mount DEFAULT_SEARCH_PAGE_SIZE actionTypeRegistryHas).
Local Abbreviation Consistent := (Consistent DEFAULT_SEARCH_PAGE_SIZE actionTypeRegistryHas).
Local Abbreviation Inv := (Inv DEFAULT_SEARCH_PAGE_SIZE actionTypeRegistryHas).

(** ** Idioms *)

Lemma truthy_length {A} (l : list A) : truthy (length l) = true ↔ l ≠ [].
Proof. destruct l; simpl; split; done. Qed.

Lemma not_truthy_length {A} (l : list A) : truthy (length l) = false ↔ l = [].
Proof. destruct l; simpl; split; done. Qed.

Lemma isEmpty_list_false {A} (l : list A) : isEmpty l = false ↔ l ≠ [].
Proof. destruct l; cbv; split; done. Qed.

Lemma isEmpty_text_false (t : option string) :
  isEmpty t = false ↔ ∃ text, t = Some text ∧ text ≠ "".
Proof.
  destruct t as [[|c text]|]; cbv; split; try done.
  - intros (text & [= <-] & Hne). done.
  - intros _. eexists. split; done.
  - intros (text & Heq & _). done.
Qed.

Lemma includes_true (ids : list string) (x : string) : includes ids x = true ↔ x ∈ ids.
Proof. unfold includes. apply bool_decide_eq_true. Qed.

Lemma elem_of_filterAlertsById (alerts : list Alert.t) (ids : list string) (alert : Alert.t) :
  alert ∈ filterAlertsById alerts ids ↔ alert ∈ alerts ∧ Alert.id alert ∈ ids.
Proof.
  unfold filterAlertsById. rewrite !list_elem_of_In, filter_In, includes_true.
  rewrite <- !list_elem_of_In. reflexivity.
Qed.

(** ** The projection *)

Lemma loadedItems_nil (s : State) :
  loadedItems s = [] ↔ AlertState.data (alertsState s) = [].
Proof.
  unfold loadedItems, convertAlertsToTableItems.
  destruct (AlertState.data (alertsState s)); simpl; split; done.
Qed.

(** C1. For every alert, alert-type index and capability flag, the
    [isEditable] field of the item that the table projection derives from the
    alert is true if and only if the viewer has full privilege on the alert's
    type ([hasAllPrivilege] of the alert and the index entry of its
    [alertTypeId]) and either the execute-actions capability is present or
    the alert has no action. *)
Theorem isEditable_iff
    (alerts : list Alert.t) (alertTypesIndex : AlertTypeIndex) (canExecute : bool) :
  Forall2
    (fun alert item =>
       AlertTableItem.alert item = alert
       ∧ (AlertTableItem.isEditable item = true ↔
            hasAllPrivilege alert (alertTypesIndex !! Alert.alertTypeId alert) = true
            ∧ (canExecute = true ∨ Alert.actions alert = [])))
    alerts (convertAlertsToTableItems alerts alertTypesIndex canExecute).
Proof.
  induction alerts as [|alert alerts IH]; simpl; constructor; [|exact IH].
  split; [reflexivity|]. simpl.
  rewrite andb_true_iff, orb_true_iff, andb_true_iff, !negb_true_iff, not_truthy_length.
  split.
  - intros [Hprivilege [Hcapability|[_ Hactions]]]; auto.
  - intros [Hprivilege [Hcapability|Hactions]]; split; auto.
    destruct canExecute; auto.
Qed.

(** ** [loadAlertsData] *)

Lemma loadAlertsData_unauthorized (r : State) :
  AlertTypeState.data (alertTypesState r) = ∅ → loadAlertsData r = Return.
Proof. intros Hempty. unfold loadAlertsData. rewrite Hempty, map_size_empty. reflexivity. Qed.

Lemma loadAlertsData_authorized (r : State) :
  AlertTypeState.data (alertTypesState r) ≠ ∅ →
  loadAlertsData r =
    (setAlertsState (AlertState.with_isLoading (alertsState r) true) ;;
     AwaitLoadAlerts (loadAlertsRequest r)
       (loadAlertsData_resolved r) (loadAlertsData_rejected r)).
Proof.
  intros Hne. unfold loadAlertsData.
  apply map_size_non_empty_iff in Hne.
  destruct (size (AlertTypeState.data (alertTypesState r))) as [|n] eqn:Hsize; [done|].
  reflexivity.
Qed.

(** C2. Whatever the page, the search text and the two filters of the render
    are, if its alert-type index is empty then [loadAlertsData] calls no
    setter and does not call [loadAlerts]: the mounted component is left as
    it is, and in particular the alerts state (data, total item count and
    loading flag) is unchanged and no call is recorded. *)
Theorem loadAlertsData_without_alert_types (r : State) (w : World) :
  AlertTypeState.data (alertTypesState r) = ∅ →
  calls (loadAlertsData r) = []
  ∧ exec (loadAlertsData r) w = w
  ∧ loadAlertsCalls (exec (loadAlertsData r) w) = loadAlertsCalls w
  ∧ pendingLoadAlerts (exec (loadAlertsData r) w) = pendingLoadAlerts w
  ∧ alertsState (state (exec (loadAlertsData r) w)) = alertsState (state w).
Proof.
  intros Hempty. rewrite (loadAlertsData_unauthorized r Hempty). simpl. done.
Qed.

(** ** The view *)

Lemma authorizedToCreateAnyAlerts_true (s : State) :
  authorizedToCreateAnyAlerts s = true ↔
  mayCreateSomeAlertType (AlertTypeState.data (alertTypesState s)).
Proof.
  unfold authorizedToCreateAnyAlerts, mayCreateSomeAlertType, authorizedAlertTypes.
  rewrite existsb_exists. split.
  - intros (alertType & Hin & Hall).
    apply list_elem_of_In, list_elem_of_fmap in Hin as ([typeId alertType'] & -> & Hin).
    apply elem_of_map_to_list in Hin. simpl in Hall.
    destruct (AlertType.authorizedConsumers alertType' !! ALERTS_FEATURE_ID)
      as [privileges|] eqn:Hconsumer; [|done].
    by exists typeId, alertType', privileges.
  - intros (typeId & alertType & privileges & Hin & Hconsumer & Hall).
    exists alertType. split; [|by rewrite Hconsumer].
    apply list_elem_of_In, list_elem_of_fmap. exists (typeId, alertType).
    split; [done|]. by apply elem_of_map_to_list.
Qed.

Lemma authorizedToCreateAnyAlerts_false (s : State) :
  authorizedToCreateAnyAlerts s = false ↔
  ¬ mayCreateSomeAlertType (AlertTypeState.data (alertTypesState s)).
Proof.
  rewrite <- authorizedToCreateAnyAlerts_true.
  destruct (authorizedToCreateAnyAlerts s); split; congruence.
Qed.

Lemma tableShown_true (s : State) :
  truthy (length (loadedItems s)) || isFilterApplied s = true ↔ tableShown s.
Proof.
  unfold isFilterApplied, tableShown.
  rewrite orb_true_iff, truthy_length, negb_true_iff, !andb_false_iff.
  rewrite isEmpty_text_false, !isEmpty_list_false.
  split; [intros [?|[[?|?]|?]]|intros [?|[?|[?|?]]]]; auto.
Qed.

Lemma tableShown_false (s : State) :
  truthy (length (loadedItems s)) || isFilterApplied s = false ↔ ¬ tableShown s.
Proof.
  rewrite <- tableShown_true.
  destruct (truthy (length (loadedItems s)) || isFilterApplied s); split; congruence.
Qed.

Lemma anyLoaderRunning_true (s : State) :
  AlertTypeState.isLoading (alertTypesState s) || AlertState.isLoading (alertsState s) = true
  ↔ anyLoaderRunning s.
Proof. unfold anyLoaderRunning. apply orb_true_iff. Qed.

Lemma anyLoaderRunning_false (s : State) :
  AlertTypeState.isLoading (alertTypesState s) || AlertState.isLoading (alertsState s) = false
  ↔ ¬ anyLoaderRunning s.
Proof.
  rewrite <- anyLoaderRunning_true.
  destruct (AlertTypeState.isLoading (alertTypesState s)
            || AlertState.isLoading (alertsState s)); split; congruence.
Qed.

(** The chain, branch by branch. *)
Lemma render_table (s : State) : tableShown s → render s = TableView (table s).
Proof. intros H. apply tableShown_true in H. unfold render. by rewrite H. Qed.

Lemma render_spinner (s : State) :
  ¬ tableShown s → anyLoaderRunning s → render s = LoadingSpinner.
Proof.
  intros H1 H2. apply tableShown_false in H1. apply anyLoaderRunning_true in H2.
  unfold render. by rewrite H1, H2.
Qed.

Lemma render_empty_prompt (s : State) :
  ¬ tableShown s → ¬ anyLoaderRunning s →
  mayCreateSomeAlertType (AlertTypeState.data (alertTypesState s)) →
  render s = EmptyPrompt.
Proof.
  intros H1 H2 H3. apply tableShown_false in H1. apply anyLoaderRunning_false in H2.
  apply authorizedToCreateAnyAlerts_true in H3.
  unfold render. by rewrite H1, H2, H3.
Qed.

Lemma render_no_permission (s : State) :
  ¬ tableShown s → ¬ anyLoaderRunning s →
  ¬ mayCreateSomeAlertType (AlertTypeState.data (alertTypesState s)) →
  render s = noPermissionPrompt.
Proof.
  intros H1 H2 H3. apply tableShown_false in H1. apply anyLoaderRunning_false in H2.
  apply authorizedToCreateAnyAlerts_false in H3.
  unfold render. by rewrite H1, H2, H3.
Qed.

Lemma tableShown_dec (s : State) : tableShown s ∨ ¬ tableShown s.
Proof.
  destruct (truthy (length (loadedItems s)) || isFilterApplied s) eqn:Hshown.
  - left. by apply tableShown_true.
  - right. by apply tableShown_false.
Qed.

Lemma anyLoaderRunning_dec (s : State) : anyLoaderRunning s ∨ ¬ anyLoaderRunning s.
Proof.
  destruct (AlertTypeState.isLoading (alertTypesState s)
            || AlertState.isLoading (alertsState s)) eqn:Hloading.
  - left. by apply anyLoaderRunning_true.
  - right. by apply anyLoaderRunning_false.
Qed.

Lemma mayCreateSomeAlertType_dec (s : State) :
  mayCreateSomeAlertType (AlertTypeState.data (alertTypesState s))
  ∨ ¬ mayCreateSomeAlertType (AlertTypeState.data (alertTypesState s)).
Proof.
  destruct (authorizedToCreateAnyAlerts s) eqn:Hcreate.
  - left. by apply authorizedToCreateAnyAlerts_true.
  - right. by apply authorizedToCreateAnyAlerts_false.
Qed.

Lemma render_TableView (s : State) (t : Table) :
  render s = TableView t → tableShown s ∧ t = table s.
Proof.
  intros Hrender. destruct (tableShown_dec s) as [Hshown|Hhidden].
  - rewrite (render_table s Hshown) in Hrender. by injection Hrender as <-.
  - exfalso. destruct (anyLoaderRunning_dec s) as [Hload|Hload].
    { by rewrite (render_spinner s Hhidden Hload) in Hrender. }
    destruct (mayCreateSomeAlertType_dec s) as [Hcreate|Hcreate].
    + by rewrite (render_empty_prompt s Hhidden Hload Hcreate) in Hrender.
    + by rewrite (render_no_permission s Hhidden Hload Hcreate) in Hrender.
Qed.

(** C6. In every state the component returns one of four views, chosen in
    this order: the table if the projected item list is not empty or one of
    committed search text, type filter and action-type filter is not empty;
    otherwise the spinner if the alert-type loader or the alert loader is
    loading; otherwise the create prompt if some alert type of the index has
    the [all] flag for the consumer [ALERTS_FEATURE_ID]; otherwise the
    permission-denied prompt. *)
Theorem render_fallback_chain (s : State) :
  let mayCreate := mayCreateSomeAlertType (AlertTypeState.data (alertTypesState s)) in
  (render s = TableView (table s) ∨ render s = LoadingSpinner
   ∨ render s = EmptyPrompt ∨ render s = noPermissionPrompt)
  ∧ ((∃ table, render s = TableView table) ↔ tableShown s)
  ∧ (render s = LoadingSpinner ↔ ¬ tableShown s ∧ anyLoaderRunning s)
  ∧ (render s = EmptyPrompt ↔ ¬ tableShown s ∧ ¬ anyLoaderRunning s ∧ mayCreate)
  ∧ (render s = noPermissionPrompt ↔
       ¬ tableShown s ∧ ¬ anyLoaderRunning s ∧ ¬ mayCreate).
Proof.
  intros mayCreate. subst mayCreate.
  destruct (tableShown_dec s) as [Htable|Htable].
  { rewrite (render_table s Htable).
    repeat split; eauto 6; try done; try (by intros [? ?]); by intros (? & ? & ?). }
  destruct (anyLoaderRunning_dec s) as [Hload|Hload].
  { rewrite (render_spinner s Htable Hload).
    repeat split; eauto 6; try done; try (by intros [? ?]); by intros (? & ? & ?). }
  destruct (mayCreateSomeAlertType_dec s) as [Hcreate|Hcreate].
  { rewrite (render_empty_prompt s Htable Hload Hcreate).
    repeat split; eauto 6; try done; try (by intros [? ?]); by intros (? & ? & ?). }
  rewrite (render_no_permission s Htable Hload Hcreate).
  repeat split; eauto 6; try done; try (by intros [? ?]); by intros (? & ? & ?).
Qed.

Lemma emptyState_not_tableShown (s : State) : emptyState s → ¬ tableShown s.
Proof.
  intros (Htext & Htypes & Hactions & Hdata & _) Hshown.
  destruct Hshown as [Hitems|[(text & Hsome & Hne)|[Hne|Hne]]]; try done.
  - by apply Hitems, loadedItems_nil.
  - destruct Htext as [Hnone|Hblank]; congruence.
Qed.

Lemma emptyState_not_loading (s : State) : emptyState s → ¬ anyLoaderRunning s.
Proof. intros (_ & _ & _ & _ & Htypes & Halerts) [H|H]; congruence. Qed.

Lemma toolsRight_create_button (s : State) :
  CreateAlertButton ∈ toolsRight (table s) ↔
  mayCreateSomeAlertType (AlertTypeState.data (alertTypesState s)).
Proof.
  rewrite <- authorizedToCreateAnyAlerts_true. simpl.
  destruct (authorizedToCreateAnyAlerts s); simpl.
  - split; [done|]. intros _. do 2 apply list_elem_of_further. apply list_elem_of_here.
  - split; [|done]. intros Hin.
    apply elem_of_cons in Hin as [Hin|Hin]; [discriminate|].
    apply elem_of_cons in Hin as [Hin|Hin]; [discriminate|].
    by apply elem_of_nil in Hin.
Qed.

(** C8. If no alert type of the index has
    [authorizedConsumers[ALERTS_FEATURE_ID].all] set, then the create-alert
    button is not among the tools of the toolbar, and in the empty state (no
    committed search text, no filter, no item, no loader running) the view is
    the permission-denied prompt, not the create prompt. *)
Theorem no_create_privilege (s : State) :
  ¬ mayCreateSomeAlertType (AlertTypeState.data (alertTypesState s)) →
  (CreateAlertButton ∉ toolsRight (table s))
  ∧ (∀ table, render s = TableView table → CreateAlertButton ∉ toolsRight table)
  ∧ (emptyState s → render s = noPermissionPrompt ∧ render s ≠ EmptyPrompt).
Proof.
  intros Hnone.
  assert (Hbutton : CreateAlertButton ∉ toolsRight (table s))
    by (by rewrite toolsRight_create_button).
  split; [done|]. split.
  - intros t Hrender. by apply render_TableView in Hrender as [_ ->].
  - intros Hempty.
    rewrite (render_no_permission s (emptyState_not_tableShown s Hempty)
               (emptyState_not_loading s Hempty) Hnone).
    done.
Qed.

(** ** Bulk edit *)

Lemma authorizedToModifySelectedAlerts_true (s : State) :
  authorizedToModifySelectedAlerts s = true ↔
  selectedIds s ≠ [] ∧ selectedAlertsAuthorized s.
Proof.
  unfold authorizedToModifySelectedAlerts, selectedAlertsAuthorized.
  destruct (truthy (length (selectedIds s))) eqn:Hselected.
  - apply truthy_length in Hselected. rewrite forallb_forall. split.
    + intros Hall. split; [done|]. intros alert Hdata Hid.
      apply Hall, list_elem_of_In, elem_of_filterAlertsById. done.
    + intros [_ Hall] alert Hin.
      apply list_elem_of_In, elem_of_filterAlertsById in Hin as [Hdata Hid]. by apply Hall.
  - apply not_truthy_length in Hselected. split; [done|]. by intros [Hne _].
Qed.

Lemma bulkOperationPopover_is_Some (s : State) :
  is_Some (bulkOperationPopover (table s)) ↔
  selectedIds s ≠ [] ∧ selectedAlertsAuthorized s.
Proof.
  rewrite <- authorizedToModifySelectedAlerts_true. simpl.
  destruct (authorizedToModifySelectedAlerts s) eqn:Hauthorized.
  - apply authorizedToModifySelectedAlerts_true in Hauthorized as [Hne _].
    destruct (selectedIds s); [done|]. simpl. split; [done|]. intros _. by eexists.
  - rewrite andb_false_r. split; [by intros [? ?]|done].
Qed.

Lemma bulkEditRendered_table (s : State) :
  bulkEditRendered s ↔ tableShown s ∧ is_Some (bulkOperationPopover (table s)).
Proof.
  unfold bulkEditRendered. split.
  - intros (t & Hrender & Hpopover). by apply render_TableView in Hrender as [? ->].
  - intros [Hshown Hpopover]. exists (table s). split; [by apply render_table|done].
Qed.

(** C7, as the code has it.  The bulk-edit controls belong to the table
    fragment, which the component returns only when an item is loaded or a
    filter is applied.  They are rendered if and only if the table is shown,
    at least one row id is selected and every loaded alert whose id is
    selected passes [hasAllPrivilege] against the index entry of its type;
    within the table fragment they are there exactly when a row id is
    selected and the selected alerts pass; with an empty selection they are
    never rendered. *)
Theorem bulkEditRendered_iff (s : State) :
  (bulkEditRendered s ↔
     tableShown s ∧ selectedIds s ≠ [] ∧ selectedAlertsAuthorized s)
  ∧ (is_Some (bulkOperationPopover (table s)) ↔
       selectedIds s ≠ [] ∧ selectedAlertsAuthorized s)
  ∧ (selectedIds s = [] → ¬ bulkEditRendered s).
Proof.
  split; [|split].
  - rewrite bulkEditRendered_table, bulkOperationPopover_is_Some. done.
  - apply bulkOperationPopover_is_Some.
  - intros Hnone Hrendered.
    apply bulkEditRendered_table in Hrendered as [_ Hpopover].
    apply bulkOperationPopover_is_Some in Hpopover as [Hne _]. done.
Qed.

Lemma filterAlertsById_nil (alerts : list Alert.t) (ids : list string) :
  (∀ alert, alert ∈ alerts → Alert.id alert ∉ ids) → filterAlertsById alerts ids = [].
Proof.
  intros Hnone. destruct (filterAlertsById alerts ids) as [|alert rest] eqn:Hfilter; [done|].
  assert (Hin : alert ∈ filterAlertsById alerts ids)
    by (rewrite Hfilter; apply list_elem_of_here).
  apply elem_of_filterAlertsById in Hin as [Hdata Hid]. by destruct (Hnone alert Hdata).
Qed.

Lemma selection_disjoint (alerts : list Alert.t) (ids : list string) :
  forallb (fun alert => negb (includes ids (Alert.id alert))) alerts = true →
  ∀ alert, alert ∈ alerts → Alert.id alert ∉ ids.
Proof.
  rewrite forallb_forall. intros Hall alert Hin Hid.
  apply list_elem_of_In, Hall, negb_true_iff in Hin.
  apply includes_true in Hid. congruence.
Qed.

(** C10, as the code has it.  For every non-empty selection of ids none of
    which is the id of a loaded alert, the authorization check of the bulk
    edit is true (the [every] ranges over an empty list) and the table
    fragment holds the bulk-edit controls, with an empty list of selected
    items; they are rendered exactly when the table is shown, that is when an
    item is loaded or a filter is applied. *)
Theorem selection_of_no_loaded_alert (s : State) :
  selectedIds s ≠ [] →
  (∀ alert, alert ∈ AlertState.data (alertsState s) → Alert.id alert ∉ selectedIds s) →
  authorizedToModifySelectedAlerts s = true
  ∧ bulkOperationPopover (table s) = Some []
  ∧ (bulkEditRendered s ↔ tableShown s).
Proof.
  intros Hselected Hnone.
  assert (Hauthorized : authorizedToModifySelectedAlerts s = true).
  { apply authorizedToModifySelectedAlerts_true. split; [done|].
    intros alert Hdata Hid. by destruct (Hnone alert Hdata). }
  assert (Hpopover : bulkOperationPopover (table s) = Some []).
  { simpl. rewrite Hauthorized, (filterAlertsById_nil _ _ Hnone).
    destruct (selectedIds s); done. }
  split; [done|]. split; [done|].
  rewrite bulkEditRendered_table, Hpopover. split; [by intros [? _]|].
  intros Hshown. split; [done|]. by eexists.
Qed.

(** C9, as the code has it.  Until the alert types are initialized the table
    is given no item and a total item count of 0, so no alert row is
    rendered; once they are, its items are the projection of the loaded
    alerts and its total item count is the one of the alerts state.  In the
    projection, an alert whose [alertTypeId] is absent from the index has its
    [alertTypeId] as [alertType], and an alert whose type is in the index has
    the name of the type. *)
Theorem alertType_column
    (s : State) (alerts : list Alert.t) (alertTypesIndex : AlertTypeIndex)
    (canExecute : bool) :
  (AlertTypeState.isInitialized (alertTypesState s) = false →
     items (table s) = [] ∧ pagination_totalItemCount (table s) = 0%Z)
  ∧ (AlertTypeState.isInitialized (alertTypesState s) = true →
       items (table s) = loadedItems s
       ∧ pagination_totalItemCount (table s) =
           AlertState.totalItemCount (alertsState s))
  ∧ Forall2
      (fun alert item =>
         AlertTableItem.alert item = alert
         ∧ (alertTypesIndex !! Alert.alertTypeId alert = None →
              AlertTableItem.alertType item = Alert.alertTypeId alert)
         ∧ (∀ alertType,
              alertTypesIndex !! Alert.alertTypeId alert = Some alertType →
              AlertTableItem.alertType item = AlertType.name alertType))
      alerts (convertAlertsToTableItems alerts alertTypesIndex canExecute).
Proof.
  split; [|split].
  - intros Hinit. simpl. by rewrite Hinit.
  - intros Hinit. simpl. by rewrite Hinit.
  - induction alerts as [|alert alerts IH]; simpl; constructor; [|exact IH].
    simpl. split; [done|]. split.
    + by intros ->.
    + by intros alertType ->.
Qed.

(** ** Running [loadAlertsData] *)

Lemma exec_loadAlertsData_authorized (r : State) (w : World) :
  AlertTypeState.data (alertTypesState r) ≠ ∅ →
  exec (loadAlertsData r) w =
    mkWorld
      (update (setAlertsState (AlertState.with_isLoading (alertsState r) true)) (state w))
      (alertsEffectScheduled w)
      (pendingLoadAlerts w
         ++ [(loadAlertsRequest r, loadAlertsData_resolved r, loadAlertsData_rejected r)])
      (pendingLoadAlertTypes w) (pendingLoadActionTypes w)
      (loadAlertsCalls w ++ [loadAlertsRequest r]) (dangerToasts w).
Proof.
  intros Hne. rewrite (loadAlertsData_authorized r Hne). simpl.
  by rewrite orb_false_r.
Qed.

Lemma exec_loadAlertsData_unauthorized (r : State) (w : World) :
  AlertTypeState.data (alertTypesState r) = ∅ → exec (loadAlertsData r) w = w.
Proof. intros Hempty. by rewrite (loadAlertsData_unauthorized r Hempty). Qed.

Lemma alertTypesIndex_dec (r : State) :
  AlertTypeState.data (alertTypesState r) = ∅ ∨ AlertTypeState.data (alertTypesState r) ≠ ∅.
Proof. destruct (decide (AlertTypeState.data (alertTypesState r) = ∅)); auto. Qed.

(** [loadAlertsData] leaves the query state and the scheduling alone. *)
Lemma exec_loadAlertsData_query (r : State) (w : World) :
  let w' := exec (loadAlertsData r) w in
  page (state w') = page (state w)
  ∧ searchText (state w') = searchText (state w)
  ∧ inputText (state w') = inputText (state w)
  ∧ typesFilter (state w') = typesFilter (state w)
  ∧ actionTypesFilter (state w') = actionTypesFilter (state w)
  ∧ selectedIds (state w') = selectedIds (state w)
  ∧ alertTypesState (state w') = alertTypesState (state w)
  ∧ alertsEffectScheduled w' = alertsEffectScheduled w
  ∧ dangerToasts w' = dangerToasts w.
Proof.
  destruct (alertTypesIndex_dec r) as [Hempty|Hne]; simpl.
  - rewrite (exec_loadAlertsData_unauthorized r w Hempty). done.
  - rewrite (exec_loadAlertsData_authorized r w Hne). done.
Qed.

Lemma flushEffects_query (w : World) :
  page (state (flushEffects w)) = page (state w)
  ∧ searchText (state (flushEffects w)) = searchText (state w)
  ∧ inputText (state (flushEffects w)) = inputText (state w)
  ∧ alertTypesState (state (flushEffects w)) = alertTypesState (state w)
  ∧ alertsEffectScheduled (flushEffects w) = false
  ∧ dangerToasts (flushEffects w) = dangerToasts w.
Proof.
  unfold flushEffects. destruct (alertsEffectScheduled w) eqn:Hscheduled; [|done].
  pose proof (exec_loadAlertsData_query (state w)
    (mkWorld (state w) false (pendingLoadAlerts w) (pendingLoadAlertTypes w)
       (pendingLoadActionTypes w) (loadAlertsCalls w) (dangerToasts w))) as H.
  simpl in H. destruct H as (? & ? & ? & _ & _ & _ & ? & ? & ?). done.
Qed.

Lemma flushEffects_idle (w : World) : alertsEffectScheduled w = false → flushEffects w = w.
Proof. intros H. unfold flushEffects. by rewrite H. Qed.

(** ** The search field *)

Lemma step_keystroke (w : World) (key : Keystroke) :
  let w' := step w (keystrokeEvent key) in
  searchText (state w') = committedAfter (inputText (state w)) (searchText (state w)) [key]
  ∧ inputText (state w') = bufferAfter (inputText (state w)) [key].
Proof.
  simpl. unfold step.
  destruct (flushEffects_query (dispatch w (keystrokeEvent key)))
    as (_ & -> & -> & _).
  destruct key as [value|keyCode]; simpl; [done|].
  unfold ENTER_KEY. destruct (Z.eqb_spec keyCode 13) as [->|Hne]; simpl.
  - done.
  - by rewrite decide_False.
Qed.

Lemma run_keystrokes (w : World) (keys : list Keystroke) :
  let w' := run w (keystrokeEvent <$> keys) in
  searchText (state w') = committedAfter (inputText (state w)) (searchText (state w)) keys
  ∧ inputText (state w') = bufferAfter (inputText (state w)) keys.
Proof.
  simpl. revert w. induction keys as [|key keys IH]; intros w; [done|].
  change (run w (keystrokeEvent <$> key :: keys))
    with (run (step w (keystrokeEvent key)) (keystrokeEvent <$> keys)).
  destruct (IH (step w (keystrokeEvent key))) as [-> ->].
  destruct (step_keystroke w key) as [-> ->].
  destruct key as [value|keyCode]; done.
Qed.

(** The setter calls that the handler of a keystroke makes. *)
Lemma calls_keystroke (r : State) (key : Keystroke) :
  mjoin (calls <$> handle r (keystrokeEvent key)) =
  match key with
  | Typed value => [setInputText (Some value)]
  | KeyUp keyCode =>
      if decide (keyCode = ENTER_KEY) then [setSearchText (inputText r)] else []
  end.
Proof.
  destruct key as [value|keyCode]; simpl; [done|].
  destruct (Z.eqb_spec keyCode ENTER_KEY) as [->|Hne].
  - by rewrite decide_True.
  - by rewrite decide_False.
Qed.

(** C4. For every sequence of keystrokes in the search field: the handler of
    a keystroke calls [setSearchText] if and only if the keystroke is a key
    release whose key code is 13 (Enter), and it then passes the current
    input buffer; every other keystroke calls at most [setInputText]; so,
    after the sequence, the committed search text is the input buffer as it
    was at the last Enter (or the committed text from before, if there was
    none), and the input buffer is the last value typed. *)
Theorem search_commits_on_enter (w : World) (keys : list Keystroke) :
  (∀ r key v,
     setSearchText v ∈ mjoin (calls <$> handle r (keystrokeEvent key)) ↔
     key = KeyUp 13 ∧ v = inputText r)
  ∧ (∀ r key,
       key ≠ KeyUp 13 →
       ∀ c, c ∈ mjoin (calls <$> handle r (keystrokeEvent key)) →
            ∃ value, key = Typed value ∧ c = setInputText (Some value))
  ∧ (∀ w key,
       key ≠ KeyUp 13 →
       searchText (state (step w (keystrokeEvent key))) = searchText (state w))
  ∧ (∀ w, searchText (state (step w (keystrokeEvent (KeyUp 13)))) = inputText (state w))
  ∧ searchText (state (run w (keystrokeEvent <$> keys))) =
      committedAfter (inputText (state w)) (searchText (state w)) keys
  ∧ inputText (state (run w (keystrokeEvent <$> keys))) =
      bufferAfter (inputText (state w)) keys.
Proof.
  split; [|split; [|split; [|split]]].
  - intros r key v. rewrite calls_keystroke.
    destruct key as [value|keyCode].
    + rewrite list_elem_of_singleton. split; [done|]. by intros [? _].
    + unfold ENTER_KEY. destruct (decide (keyCode = 13%Z)) as [->|Hne].
      * rewrite list_elem_of_singleton. split; [by intros [= ->]|by intros [_ ->]].
      * rewrite elem_of_nil. split; [done|]. intros [[= ?] _]. done.
  - intros r key Hkey c. rewrite calls_keystroke.
    destruct key as [value|keyCode].
    + rewrite list_elem_of_singleton. intros ->. by exists value.
    + unfold ENTER_KEY. destruct (decide (keyCode = 13%Z)) as [->|Hne]; [done|].
      by rewrite elem_of_nil.
  - intros w0 key Hkey. destruct (step_keystroke w0 key) as [-> _].
    destruct key as [value|keyCode]; simpl; [done|].
    destruct (decide (keyCode = 13%Z)) as [->|Hne]; done.
  - intros w0. by destruct (step_keystroke w0 (KeyUp 13)) as [-> _].
  - apply run_keystrokes.
Qed.

(** ** A [loadAlerts] promise settles *)

Lemma lookup_pending_last {A} (l : list A) (x : A) : (l ++ [x]) !! length l = Some x.
Proof. by rewrite list_lookup_middle. Qed.

Lemma delete_pending_last {A} (l : list A) (x : A) : delete (length l) (l ++ [x]) = l.
Proof.
  induction l as [|y l IH]; simpl; [done|]. by rewrite IH.
Qed.

(** ** The invariant of the mounted component *)

Lemma update_alertTypesState (c : Cmd) (s : State) :
  (∀ v, c ≠ setAlertTypesState v) → alertTypesState (update c s) = alertTypesState s.
Proof. intros Hc. destruct c; simpl; try done. by destruct (Hc v). Qed.

Lemma quiet_Tame (alertTypesIndex : AlertTypeIndex) (rest : Prog) :
  quiet rest → Tame alertTypesIndex rest.
Proof. intros [->| ->]; repeat constructor; done. Qed.

Lemma Tame_exec (p : Prog) (w : World) :
  Tame (AlertTypeState.data (alertTypesState (state w))) p →
  Consistent w →
  Consistent (exec p w)
  ∧ alertTypesState (state (exec p w)) = alertTypesState (state w).
Proof.
  intros Htame. revert w Htame.
  induction p as [|c k IH|req resolved IHresolved rejected IHrejected| |];
    intros w Htame Hw; inversion Htame; subst; simpl.
  - done.
  - assert (Htypes : alertTypesState (state (call c w)) = alertTypesState (state w))
      by (by apply update_alertTypesState).
    destruct (IH (call c w)) as [Hk Hsame].
    + by rewrite Htypes.
    + destruct Hw as (Halerts & Hactions & Hphase). repeat split; try done.
      simpl. by rewrite update_alertTypesState.
    + split; [done|]. by rewrite Hsame.
  - destruct Hw as (Halerts & Hactions & Hphase). split; [|done].
    repeat split; simpl; try done.
    + apply Forall_app. split; [done|]. by constructor.
    + destruct Hphase as [(_ & Hempty & _)|(Htypes & _)]; [done|].
      right. split; [done|]. by right.
Qed.

Lemma suspended_loadAlertsData (r : State) :
  suspendedLoadAlertsData r Return
    (loadAlertsRequest r, loadAlertsData_resolved r, loadAlertsData_rejected r).
Proof.
  repeat split. intros alertsResponse. simpl. unfold loadAlertsData_resolved. simpl.
  by destruct (negb (truthy (length (LoadAlerts.data alertsResponse)))
               && (0 <? Pagination.index (page r))%Z).
Qed.

Lemma Tame_andThen_loadAlertsData (r : State) (rest : Prog) :
  quiet rest →
  Tame (AlertTypeState.data (alertTypesState r)) (andThen (loadAlertsData r) rest).
Proof.
  intros Hquiet. destruct (alertTypesIndex_dec r) as [Hempty|Hne].
  - rewrite (loadAlertsData_unauthorized r Hempty). simpl. by apply quiet_Tame.
  - rewrite (loadAlertsData_authorized r Hne). simpl.
    constructor; [done|]. constructor; [done|].
    exists r, rest. repeat split; done.
Qed.

Lemma Tame_loadAlertsData (r : State) :
  Tame (AlertTypeState.data (alertTypesState r)) (loadAlertsData r).
Proof.
  destruct (alertTypesIndex_dec r) as [Hempty|Hne].
  - rewrite (loadAlertsData_unauthorized r Hempty). constructor.
  - rewrite (loadAlertsData_authorized r Hne).
    constructor; [done|]. constructor; [done|].
    exists r, Return. split; [apply suspended_loadAlertsData|by left].
Qed.

Lemma Tame_handle (r : State) (e : Event) :
  Forall (Tame (AlertTypeState.data (alertTypesState r))) (handle r e).
Proof.
  destruct e; simpl; repeat constructor; try done;
    try apply Tame_loadAlertsData.
  - destruct (keyCode =? ENTER_KEY)%Z; repeat constructor; done.
  - apply Tame_andThen_loadAlertsData. by right.
Qed.

Lemma Tame_execs (ps : list Prog) (w : World) :
  Forall (Tame (AlertTypeState.data (alertTypesState (state w)))) ps →
  Consistent w →
  Consistent (foldl (fun w p => exec p w) w ps).
Proof.
  revert w. induction ps as [|p ps IH]; intros w Hps Hw; simpl; [done|].
  inversion Hps as [|? ? Hp Hrest]; subst.
  destruct (Tame_exec p w Hp Hw) as [Hw' Hsame].
  apply IH; [|done]. by rewrite Hsame.
Qed.

Lemma Tame_settled (alertTypesIndex : AlertTypeIndex) (r : State) (rest : Prog)
    (result : option LoadAlerts.response) :
  quiet rest →
  Tame alertTypesIndex
    (match result with
     | Some alertsResponse => andThen (loadAlertsData_resolved r alertsResponse) rest
     | None => andThen (loadAlertsData_rejected r) rest
     end).
Proof.
  intros Hquiet. destruct result as [alertsResponse|]; simpl.
  - unfold loadAlertsData_resolved. simpl. constructor; [done|].
    destruct (negb (truthy (length (LoadAlerts.data alertsResponse)))
               && (0 <? Pagination.index (page r))%Z); simpl.
    + constructor; [done|]. by apply quiet_Tame.
    + by apply quiet_Tame.
  - constructor; [done|]. constructor; [done|]. by apply quiet_Tame.
Qed.

Lemma Forall_delete {A} (P : A → Prop) (l : list A) (n : nat) :
  Forall P l → Forall P (delete n l).
Proof.
  intros Hl. revert n. induction Hl as [|x l Hx Hl IH]; intros [|n]; simpl; auto.
Qed.

Lemma Consistent_dispatch (w : World) (e : Event) :
  Consistent w → Consistent (dispatch w e).
Proof.
  intros Hw.
  assert (Hhandle : Consistent (foldl (fun w p => exec p w) w (handle (state w) e)))
    by (apply Tame_execs; [apply Tame_handle|done]).
  destruct Hw as (Halerts & Hactions & Hphase).
  destruct e as [n result|n result|n result| | | | | | | | | | | | | | | | |];
    try exact Hhandle; simpl.
  - (* the alert types settle *)
    destruct (pendingLoadAlertTypes w !! n) as [k|] eqn:Hk; [|done].
    destruct Hphase as [(Htypes & Hempty & Hnone)|(Htypes & _)];
      [|by rewrite Htypes in Hk].
    rewrite Htypes in Hk |- *. destruct n as [|n]; [|done].
    injection Hk as <-.
    destruct result as [alertTypes|]; simpl;
      (repeat split; simpl; [by rewrite Hnone|done|right; split; [done|by left]]).
  - (* the action types settle *)
    destruct (pendingLoadActionTypes w !! n) as [k|] eqn:Hk; [|done].
    assert (Hshape : k = (loadActionTypes_resolved actionTypeRegistryHas,
                          loadActionTypes_rejected)).
    { eapply (proj1 (Forall_forall _ _) Hactions), list_elem_of_lookup_2, Hk. }
    subst k.
    apply Tame_exec.
    + destruct result; simpl; repeat constructor; done.
    + repeat split; simpl; try done. by apply Forall_delete.
  - (* a page of alerts settles *)
    destruct (pendingLoadAlerts w !! n) as [[[req resolved] rejected]|] eqn:Hk; [|done].
    assert (Hshape : wellSuspended (req, resolved, rejected)).
    { eapply (proj1 (Forall_forall _ _) Halerts), list_elem_of_lookup_2, Hk. }
    destruct Hshape as (r & rest & (Hreq & Hresolved & Hrejected) & Hquiet).
    simpl in Hreq, Hresolved, Hrejected.
    apply Tame_exec.
    + replace (settle (resolved, rejected) result)
        with (match result with
              | Some alertsResponse =>
                  andThen (loadAlertsData_resolved r alertsResponse) rest
              | None => andThen (loadAlertsData_rejected r) rest
              end)
        by (destruct result; simpl; [by rewrite Hresolved|by rewrite Hrejected]).
      by apply Tame_settled.
    + repeat split; simpl; try done; [by apply Forall_delete|].
      destruct Hphase as [(_ & _ & Hnone)|(Htypes & [Hnone|Hne])];
        try (by rewrite Hnone in Hk).
      right. split; [done|]. by right.
Qed.

Lemma flushEffects_Inv (w : World) : Consistent w → Inv (flushEffects w).
Proof.
  intros Hw. split; [apply flushEffects_query|].
  unfold flushEffects. destruct (alertsEffectScheduled w); [|done].
  apply Tame_exec; [apply Tame_loadAlertsData|done].
Qed.

Lemma Inv_step (w : World) (e : Event) : Inv w → Inv (step w e).
Proof. intros [_ Hw]. by apply flushEffects_Inv, Consistent_dispatch. Qed.

Lemma Inv_run (w : World) (events : list Event) : Inv w → Inv (run w events).
Proof.
  revert w. induction events as [|e events IH]; intros w Hw; [done|].
  apply IH, Inv_step, Hw.
Qed.

Lemma Inv_mount : Inv mount.
Proof.
  apply flushEffects_Inv.
  rewrite exec_loadAlertsData_unauthorized by done.
  repeat split; simpl; try done.
  - by repeat constructor.
  - by left.
Qed.

Lemma reachable_Inv (events : list Event) : Inv (run mount events).
Proof. apply Inv_run, Inv_mount. Qed.

(** What the component does when a page of alerts arrives, in a world that
    satisfies the invariant. *)
Lemma step_loadAlerts_resolved
    (w : World) (n : nat) (req : LoadAlerts.request)
    (resolved : LoadAlerts.response → Prog) (rejected : Prog)
    (alertsResponse : LoadAlerts.response) :
  Inv w →
  pendingLoadAlerts w !! n = Some (req, resolved, rejected) →
  let w' := step w (LoadAlertsSettled n (Some alertsResponse)) in
  AlertState.data (alertsState (state w')) = LoadAlerts.data alertsResponse
  ∧ AlertState.totalItemCount (alertsState (state w')) = LoadAlerts.total alertsResponse
  ∧ (LoadAlerts.data alertsResponse = [] →
     (0 < Pagination.index (LoadAlerts.page req))%Z →
     page (state w') =
       {| Pagination.index := 0;
          Pagination.size := Pagination.size (LoadAlerts.page req) |}
     ∧ loadAlertsCalls w' = loadAlertsCalls w ++ [loadAlertsRequest (state w')])
  ∧ (LoadAlerts.data alertsResponse ≠ [] ∨ Pagination.index (LoadAlerts.page req) = 0%Z →
     page (state w') = page (state w) ∧ loadAlertsCalls w' = loadAlertsCalls w).
Proof.
  intros (Hidle & Halerts & _ & Hphase) Hk.
  assert (Hshape : wellSuspended (req, resolved, rejected)).
  { eapply (proj1 (Forall_forall _ _) Halerts), list_elem_of_lookup_2, Hk. }
  destruct Hshape as (r & rest & (Hreq & Hresolved & _) & Hquiet).
  cbn [fst snd] in Hreq, Hresolved. subst req.
  assert (Hindex : AlertTypeState.data (alertTypesState (state w)) ≠ ∅).
  { destruct Hphase as [(_ & _ & Hnone)|(_ & [Hnone|Hne])];
      try (by rewrite Hnone in Hk). done. }
  simpl. unfold step, dispatch. rewrite Hk. cbn [settle fst snd].
  rewrite Hresolved. unfold loadAlertsData_resolved.
  destruct (negb (truthy (length (LoadAlerts.data alertsResponse)))
            && (0 <? Pagination.index (page r))%Z) eqn:Hreset.
  - (* the page is empty and was not the first *)
    apply andb_true_iff in Hreset as [Hempty Hpos].
    assert (Hflush : ∀ w0,
      alertsEffectScheduled w0 = true →
      AlertTypeState.data (alertTypesState (state w0)) ≠ ∅ →
      loadAlertsCalls (flushEffects w0) = loadAlertsCalls w0 ++ [loadAlertsRequest (state w0)]
      ∧ page (state (flushEffects w0)) = page (state w0)
      ∧ loadAlertsRequest (state (flushEffects w0)) = loadAlertsRequest (state w0)
      ∧ AlertState.data (alertsState (state (flushEffects w0))) =
          AlertState.data (alertsState (state w0))
      ∧ AlertState.totalItemCount (alertsState (state (flushEffects w0))) =
          AlertState.totalItemCount (alertsState (state w0))).
    { intros w0 Hscheduled Hne. unfold flushEffects. rewrite Hscheduled.
      rewrite exec_loadAlertsData_authorized by done. done. }
    destruct Hquiet as [-> | ->]; simpl;
      (match goal with
       | |- context [flushEffects ?w0] =>
           destruct (Hflush w0) as (Hcalls & Hpage & Hrequest & Hdata & Htotal);
             [simpl; rewrite Hidle; reflexivity | exact Hindex |]
       end);
      rewrite Hcalls, Hpage, Hrequest, Hdata, Htotal; simpl;
      (split; [done|]; split; [done|]; split;
       [intros _ _; split; done
       |intros [Hne|Hzero]; exfalso;
        [apply negb_true_iff, not_truthy_length in Hempty; done
        |apply Z.ltb_lt in Hpos; simpl in Hzero; lia]]).
  - (* the page has alerts, or was the first *)
    assert (Hkeep : LoadAlerts.data alertsResponse = [] →
                    (0 < Pagination.index (page r))%Z → False).
    { intros Hempty Hpos. apply andb_false_iff in Hreset as [Hreset|Hreset].
      - apply negb_false_iff, truthy_length in Hreset. done.
      - apply Z.ltb_ge in Hreset. lia. }
    destruct Hquiet as [-> | ->]; simpl;
      rewrite flushEffects_idle by (simpl; by rewrite Hidle);
      simpl; (split; [done|]; split; [done|]; split;
              [intros Hempty Hpos; by destruct Hkeep|done]).
Qed.

(** C3. In every world the mounted component can reach: when a [loadAlerts]
    promise resolves with an empty data array and the page index [N] of its
    request is greater than zero, the page index is reset to 0 (the page size
    of the request is kept), and the change of [page] makes the alerts effect
    run [loadAlertsData] again, which calls [loadAlerts] for page 0; when the
    response is not empty, or the request was for page 0, the page is left
    as it is and [loadAlerts] is not called.  In both cases the alert list
    and the total count are replaced by those of the response. *)
Theorem empty_page_resets
    (events : list Event) (n : nat) (req : LoadAlerts.request)
    (resolved : LoadAlerts.response → Prog) (rejected : Prog)
    (alertsResponse : LoadAlerts.response) :
  let w := run mount events in
  pendingLoadAlerts w !! n = Some (req, resolved, rejected) →
  let w' := step w (LoadAlertsSettled n (Some alertsResponse)) in
  AlertState.data (alertsState (state w')) = LoadAlerts.data alertsResponse
  ∧ AlertState.totalItemCount (alertsState (state w')) = LoadAlerts.total alertsResponse
  ∧ (LoadAlerts.data alertsResponse = [] →
     (0 < Pagination.index (LoadAlerts.page req))%Z →
     page (state w') =
       {| Pagination.index := 0;
          Pagination.size := Pagination.size (LoadAlerts.page req) |}
     ∧ loadAlertsCalls w' = loadAlertsCalls w ++ [loadAlertsRequest (state w')])
  ∧ (LoadAlerts.data alertsResponse ≠ [] ∨ Pagination.index (LoadAlerts.page req) = 0%Z →
     page (state w') = page (state w) ∧ loadAlertsCalls w' = loadAlertsCalls w).
Proof.
  intros w Hk.
  apply (step_loadAlerts_resolved w n req resolved rejected alertsResponse);
    [apply reachable_Inv|exact Hk].
Qed.

(** * Further properties

    What the rest of the component does: the index the alert-type loader
    builds, the two loaders at mount, what each event may change, when
    [loadAlerts] is called and with which request, the delete callbacks, and
    responses that arrive out of order. *)

(** ** The index built by the alert-type loader *)

Lemma loadAlertTypes_resolved_index (alertTypes : list AlertType.t) :
  loadAlertTypes_resolved alertTypes =
    (setAlertTypesState
       {| AlertTypeState.isLoading := false;
          AlertTypeState.isInitialized := true;
          AlertTypeState.data := alertTypesIndexOf alertTypes |} ;;
     Return).
Proof. reflexivity. Qed.

Lemma alertTypesIndexOf_snoc (alertTypes : list AlertType.t) (alertType : AlertType.t) :
  alertTypesIndexOf (alertTypes ++ [alertType]) =
  <[AlertType.id alertType := alertType]> (alertTypesIndexOf alertTypes).
Proof. unfold alertTypesIndexOf. by rewrite foldl_app. Qed.

Lemma alertTypesIndexOf_lookup (alertTypes : list AlertType.t) (typeId : string) :
  alertTypesIndexOf alertTypes !! typeId =
  last (filter (fun alertType => AlertType.id alertType = typeId) alertTypes).
Proof.
  induction alertTypes as [|alertType alertTypes IH] using rev_ind; [done|].
  rewrite alertTypesIndexOf_snoc, filter_app, filter_cons, filter_nil.
  destruct (decide (AlertType.id alertType = typeId)) as [<-|Hne].
  - by rewrite lookup_insert_eq, last_snoc.
  - by rewrite lookup_insert_ne, app_nil_r.
Qed.

Lemma alertTypesIndexOf_empty (alertTypes : list AlertType.t) :
  alertTypesIndexOf alertTypes = ∅ ↔ alertTypes = [].
Proof.
  split; [|by intros ->].
  destruct alertTypes as [|alertType alertTypes _] using rev_ind; [done|].
  rewrite alertTypesIndexOf_snoc. intros Hempty.
  by apply insert_non_empty in Hempty.
Qed.

(** X1. The index that the alert-type loader builds from the response maps
    an id to the last alert type of the response that has this id (or to
    nothing when none has): every entry is an alert type of the response
    stored under its own id, every alert type of the response has its id in
    the index, and the index is empty exactly when the response is. *)
Theorem alertTypesIndex_of_response (alertTypes : list AlertType.t) :
  let index := alertTypesIndexOf alertTypes in
  loadAlertTypes_resolved alertTypes =
    (setAlertTypesState
       {| AlertTypeState.isLoading := false;
          AlertTypeState.isInitialized := true;
          AlertTypeState.data := index |} ;;
     Return)
  ∧ (∀ typeId,
     index !! typeId =
     last (filter (fun alertType => AlertType.id alertType = typeId) alertTypes))
  ∧ (∀ typeId alertType,
       index !! typeId = Some alertType →
       alertType ∈ alertTypes ∧ AlertType.id alertType = typeId)
  ∧ (∀ alertType, alertType ∈ alertTypes → is_Some (index !! AlertType.id alertType))
  ∧ (index = ∅ ↔ alertTypes = [])
  ∧ (size index ≤ length alertTypes)%nat.
Proof.
  intros index. subst index. split; [reflexivity|].
  split; [apply alertTypesIndexOf_lookup|].
  split; [|split; [|split; [apply alertTypesIndexOf_empty|]]].
  - intros typeId alertType. rewrite alertTypesIndexOf_lookup. intros Hlast.
    apply last_Some in Hlast as [l Hl].
    assert (Hin : alertType ∈ filter (fun alertType => AlertType.id alertType = typeId)
                                alertTypes)
      by (rewrite Hl; apply elem_of_app; right; apply list_elem_of_singleton; done).
    by apply list_elem_of_filter in Hin as [? ?].
  - intros alertType Hin. rewrite alertTypesIndexOf_lookup.
    destruct (last _) as [found|] eqn:Hlast; [by eexists|].
    apply last_None in Hlast.
    assert (Hfiltered : alertType ∈ filter (fun alertType' =>
              AlertType.id alertType' = AlertType.id alertType) alertTypes)
      by (by apply list_elem_of_filter).
    rewrite Hlast in Hfiltered. by apply elem_of_nil in Hfiltered.
  - induction alertTypes as [|alertType alertTypes IH] using rev_ind; [done|].
    rewrite alertTypesIndexOf_snoc, length_app. simpl.
    destruct (alertTypesIndexOf alertTypes !! AlertType.id alertType) eqn:Hlookup;
      [rewrite map_size_insert_Some by eauto|rewrite map_size_insert_None by done];
      lia.
Qed.

(** ** The two loaders at mount *)

Lemma mount_world :
  mount =
    mkWorld
      (update (setAlertTypesState
                 (AlertTypeState.with_isLoading (alertTypesState initialState) true))
              initialState)
      false []
      [(loadAlertTypes_resolved, loadAlertTypes_rejected initialState)]
      [(loadActionTypes_resolved actionTypeRegistryHas, loadActionTypes_rejected)]
      [] [].
Proof.
  unfold mount. rewrite exec_loadAlertsData_unauthorized by done. simpl.
  unfold flushEffects. simpl. by rewrite exec_loadAlertsData_unauthorized.
Qed.

Lemma flushEffects_unauthorized (w : World) :
  AlertTypeState.data (alertTypesState (state w)) = ∅ →
  flushEffects w =
    mkWorld (state w) false (pendingLoadAlerts w) (pendingLoadAlertTypes w)
      (pendingLoadActionTypes w) (loadAlertsCalls w) (dangerToasts w).
Proof.
  intros Hempty. unfold flushEffects. destruct w as [s [] ? ? ? ? ?]; simpl in *.
  - by rewrite exec_loadAlertsData_unauthorized.
  - done.
Qed.

Lemma flushEffects_authorized (w : World) :
  AlertTypeState.data (alertTypesState (state w)) ≠ ∅ →
  alertsEffectScheduled w = true →
  flushEffects w =
    mkWorld
      (update (setAlertsState (AlertState.with_isLoading (alertsState (state w)) true))
              (state w))
      false
      (pendingLoadAlerts w
         ++ [(loadAlertsRequest (state w), loadAlertsData_resolved (state w),
              loadAlertsData_rejected (state w))])
      (pendingLoadAlertTypes w) (pendingLoadActionTypes w)
      (loadAlertsCalls w ++ [loadAlertsRequest (state w)]) (dangerToasts w).
Proof.
  intros Hne Hscheduled. unfold flushEffects. rewrite Hscheduled.
  by rewrite exec_loadAlertsData_authorized.
Qed.

(** X2. When the alert types arrive after mount, the alert-type state
    becomes initialized and not loading, with the index built from the
    response, and no toast is raised.  If the response holds an alert type,
    the change of the alert-type state makes the alerts effect call
    [loadAlerts] once, for page 0 with the default page size, no search text
    and no filter, and the alerts state is loading; if the response is empty,
    [loadAlerts] is not called. *)
Theorem alertTypes_resolved_after_mount (alertTypes : list AlertType.t) :
  let w := step mount (LoadAlertTypesSettled 0 (Some alertTypes)) in
  alertTypesState (state w) =
    {| AlertTypeState.isLoading := false;
       AlertTypeState.isInitialized := true;
       AlertTypeState.data := alertTypesIndexOf alertTypes |}
  ∧ dangerToasts w = []
  ∧ pendingLoadAlertTypes w = []
  ∧ (alertTypes = [] →
       loadAlertsCalls w = [] ∧ AlertState.isLoading (alertsState (state w)) = false)
  ∧ (alertTypes ≠ [] →
       loadAlertsCalls w =
         [ {| LoadAlerts.page :=
                {| Pagination.index := 0; Pagination.size := DEFAULT_SEARCH_PAGE_SIZE |};
              LoadAlerts.searchText := None;
              LoadAlerts.typesFilter := [];
              LoadAlerts.actionTypesFilter := [] |} ]
       ∧ AlertState.isLoading (alertsState (state w)) = true).
Proof.
  simpl. rewrite mount_world. unfold step, dispatch. simpl.
  destruct (decide (alertTypes = [])) as [->|Hne].
  - rewrite flushEffects_unauthorized by done. simpl. done.
  - rewrite flushEffects_authorized;
      [|simpl; by rewrite alertTypesIndexOf_empty|done].
    simpl. done.
Qed.

(** ** What an event may change *)

Lemma exec_loadAlertsData (r : State) (w : World) :
  exec (loadAlertsData r) w =
    if decide (AlertTypeState.data (alertTypesState r) = ∅) then w
    else
      mkWorld
        (update (setAlertsState (AlertState.with_isLoading (alertsState r) true)) (state w))
        (alertsEffectScheduled w)
        (pendingLoadAlerts w
           ++ [(loadAlertsRequest r, loadAlertsData_resolved r, loadAlertsData_rejected r)])
        (pendingLoadAlertTypes w) (pendingLoadActionTypes w)
        (loadAlertsCalls w ++ [loadAlertsRequest r]) (dangerToasts w).
Proof.
  case_decide.
  - by apply exec_loadAlertsData_unauthorized.
  - by apply exec_loadAlertsData_authorized.
Qed.

Lemma exec_andThen_loadAlertsData (r : State) (rest : Prog) (w : World) :
  exec (andThen (loadAlertsData r) rest) w =
    if decide (AlertTypeState.data (alertTypesState r) = ∅) then exec rest w
    else
      mkWorld
        (update (setAlertsState (AlertState.with_isLoading (alertsState r) true)) (state w))
        (alertsEffectScheduled w)
        (pendingLoadAlerts w
           ++ [(loadAlertsRequest r,
                fun alertsResponse => andThen (loadAlertsData_resolved r alertsResponse) rest,
                andThen (loadAlertsData_rejected r) rest)])
        (pendingLoadAlertTypes w) (pendingLoadActionTypes w)
        (loadAlertsCalls w ++ [loadAlertsRequest r]) (dangerToasts w).
Proof.
  case_decide as Hindex.
  - by rewrite (loadAlertsData_unauthorized r Hindex).
  - rewrite (loadAlertsData_authorized r Hindex). simpl. by rewrite orb_false_r.
Qed.

Lemma flushEffects_cases (w : World) :
  flushEffects w =
    if alertsEffectScheduled w then
      if decide (AlertTypeState.data (alertTypesState (state w)) = ∅) then
        mkWorld (state w) false (pendingLoadAlerts w) (pendingLoadAlertTypes w)
          (pendingLoadActionTypes w) (loadAlertsCalls w) (dangerToasts w)
      else
        mkWorld
          (update (setAlertsState (AlertState.with_isLoading (alertsState (state w)) true))
                  (state w))
          false
          (pendingLoadAlerts w
             ++ [(loadAlertsRequest (state w), loadAlertsData_resolved (state w),
                  loadAlertsData_rejected (state w))])
          (pendingLoadAlertTypes w) (pendingLoadActionTypes w)
          (loadAlertsCalls w ++ [loadAlertsRequest (state w)]) (dangerToasts w)
    else w.
Proof.
  unfold flushEffects. destruct (alertsEffectScheduled w); [|done].
  rewrite exec_loadAlertsData. by case_decide.
Qed.

(** A settled [loadAlerts] promise runs the rest of a [loadAlertsData], and
    the index was not empty when it was called, nor is it now. *)
Lemma dispatch_LoadAlertsSettled
    (w : World) (n : nat) (req : LoadAlerts.request)
    (resolved : LoadAlerts.response → Prog) (rejected : Prog)
    (result : option LoadAlerts.response) :
  Consistent w →
  pendingLoadAlerts w !! n = Some (req, resolved, rejected) →
  ∃ r rest,
    req = loadAlertsRequest r
    ∧ quiet rest
    ∧ AlertTypeState.data (alertTypesState (state w)) ≠ ∅
    ∧ dispatch w (LoadAlertsSettled n result) =
        exec
          (match result with
           | Some alertsResponse => andThen (loadAlertsData_resolved r alertsResponse) rest
           | None => andThen (loadAlertsData_rejected r) rest
           end)
          (mkWorld (state w) (alertsEffectScheduled w) (delete n (pendingLoadAlerts w))
             (pendingLoadAlertTypes w) (pendingLoadActionTypes w) (loadAlertsCalls w)
             (dangerToasts w)).
Proof.
  intros (Halerts & _ & Hphase) Hk.
  assert (Hshape : wellSuspended (req, resolved, rejected)).
  { eapply (proj1 (Forall_forall _ _) Halerts), list_elem_of_lookup_2, Hk. }
  destruct Hshape as (r & rest & (Hreq & Hresolved & Hrejected) & Hquiet).
  cbn [fst snd] in Hreq, Hresolved, Hrejected.
  exists r, rest. split; [done|]. split; [done|]. split.
  { destruct Hphase as [(_ & _ & Hnone)|(_ & [Hnone|Hne])];
      try (by rewrite Hnone in Hk). done. }
  unfold dispatch. rewrite Hk.
  destruct result; simpl; [by rewrite Hresolved|by rewrite Hrejected].
Qed.

Lemma dispatch_LoadAlertTypesSettled
    (w : World) (n : nat) (result : option (list AlertType.t)) :
  Consistent w →
  (pendingLoadAlertTypes w = [] ∧ dispatch w (LoadAlertTypesSettled n result) = w)
  ∨ (pendingLoadAlertTypes w =
       [(loadAlertTypes_resolved, loadAlertTypes_rejected initialState)]
     ∧ AlertTypeState.data (alertTypesState (state w)) = ∅
     ∧ pendingLoadAlerts w = []
     ∧ dispatch w (LoadAlertTypesSettled n result) =
         match n with
         | 0 =>
             exec
               (match result with
                | Some alertTypes => loadAlertTypes_resolved alertTypes
                | None => loadAlertTypes_rejected initialState
                end)
               (mkWorld (state w) (alertsEffectScheduled w) (pendingLoadAlerts w) []
                  (pendingLoadActionTypes w) (loadAlertsCalls w) (dangerToasts w))
         | S _ => w
         end).
Proof.
  intros (_ & _ & [(Htypes & Hempty & Hnone)|(Htypes & _)]).
  - right. repeat split; try done. unfold dispatch. rewrite Htypes.
    destruct n as [|n]; [|done]. by destruct result.
  - left. split; [done|]. unfold dispatch. by rewrite Htypes.
Qed.

Lemma dispatch_LoadActionTypesSettled
    (w : World) (n : nat) (result : option (list ActionType.t)) :
  Consistent w →
  dispatch w (LoadActionTypesSettled n result) =
    match pendingLoadActionTypes w !! n with
    | Some _ =>
        exec
          (match result with
           | Some actionTypes => loadActionTypes_resolved actionTypeRegistryHas actionTypes
           | None => loadActionTypes_rejected
           end)
          (mkWorld (state w) (alertsEffectScheduled w) (pendingLoadAlerts w)
             (pendingLoadAlertTypes w) (delete n (pendingLoadActionTypes w))
             (loadAlertsCalls w) (dangerToasts w))
    | None => w
    end.
Proof.
  intros (_ & Hactions & _). unfold dispatch.
  destruct (pendingLoadActionTypes w !! n) as [k|] eqn:Hk; [|done].
  assert (Hshape : k = (loadActionTypes_resolved actionTypeRegistryHas,
                        loadActionTypes_rejected)).
  { eapply (proj1 (Forall_forall _ _) Hactions), list_elem_of_lookup_2, Hk. }
  subst k. by destruct result.
Qed.

(** Brings [step w e] to an explicit world, event by event, in a world that
    satisfies the invariant ([Hidle], [Hw]). *)
Ltac step_cases w e Hidle Hw :=
  unfold step;
  destruct e as [n result|n result|n result| | | | | | | | | | | | | | | | |];
  [ destruct (dispatch_LoadAlertTypesSettled w n result Hw)
      as [[Htypes ->]|(Htypes & Hempty & Hnone & ->)];
      [|destruct n; [destruct result|]]
  | rewrite (dispatch_LoadActionTypesSettled w n result Hw);
      destruct (pendingLoadActionTypes w !! n); [destruct result|]
  | let Hk := fresh "Hk" in
    destruct (pendingLoadAlerts w !! n) as [[[req resolved] rejected]|] eqn:Hk;
      [ let r := fresh "r" in
        let rest := fresh "rest" in
        let Hquiet := fresh "Hquiet" in
        let Hne := fresh "Hne" in
        destruct (dispatch_LoadAlertsSettled w n req resolved rejected result Hw Hk)
          as (r & rest & -> & Hquiet & Hne & ->);
        destruct Hquiet as [->| ->]; destruct result as [alertsResponse|];
        [ unfold loadAlertsData_resolved;
          destruct (negb (truthy (length (LoadAlerts.data alertsResponse)))
                    && (0 <? Pagination.index (page r))%Z) eqn:Hreset
        |
        | unfold loadAlertsData_resolved;
          destruct (negb (truthy (length (LoadAlerts.data alertsResponse)))
                    && (0 <? Pagination.index (page r))%Z) eqn:Hreset
        | ]
      | unfold dispatch; rewrite Hk ]
  | .. ];
  unfold dispatch, handle;
  simpl;
  rewrite ?exec_loadAlertsData, ?exec_andThen_loadAlertsData;
  rewrite flushEffects_cases;
  simpl; rewrite ?Hidle; simpl.

Lemma step_selectedIds (w : World) (e : Event) :
  Inv w →
  selectedIds (state (step w e)) =
    match e with
    | SelectionChange updatedSelectedItemsList =>
        AlertTableItem.id <$> updatedSelectedItemsList
    | Deleted _ => []
    | _ => selectedIds (state w)
    end.
Proof.
  intros [Hidle Hw].
  step_cases w e Hidle Hw; repeat case_decide; repeat case_match; simpl; done.
Qed.

Lemma Synchronized_step (w : World) (e : Event) :
  Inv w → Synchronized w → Synchronized (step w e).
Proof.
  intros [Hidle Hw] (Sinit & Sempty & Slast). unfold Synchronized.
  step_cases w e Hidle Hw; repeat case_decide; simpl in *.
  all: repeat case_match; simpl in *.
  all: try (split; [done|split; [done|]]).
  all: try (by rewrite ?last_snoc).
  all: try (split; [done|split; [intros _; by apply Sempty | done]]).
  (* Enter with the committed text already equal to the buffer *)
  rewrite Hidle in *. simpl in *.
  match goal with
  | Hsame : negb (bool_decide _) = false |- _ =>
      apply negb_false_iff, bool_decide_eq_true in Hsame; rewrite Hsame
  end.
  intros Hne. by rewrite (Slast Hne).
Qed.

Lemma Synchronized_mount : Synchronized mount.
Proof. rewrite mount_world. repeat split; done. Qed.

Lemma run_snoc (w : World) (events : list Event) (e : Event) :
  run w (events ++ [e]) = step (run w events) e.
Proof. unfold run. by rewrite foldl_app. Qed.

Lemma Synchronized_run (w : World) (events : list Event) :
  Inv w → Synchronized w → Synchronized (run w events).
Proof.
  intros Hw Hs. induction events as [|e events IH] using rev_ind; [done|].
  rewrite run_snoc. apply Synchronized_step; [by apply Inv_run|done].
Qed.

Lemma reachable_Synchronized (events : list Event) : Synchronized (run mount events).
Proof. apply Synchronized_run; [apply Inv_mount|apply Synchronized_mount]. Qed.

(** X4. In every world the mounted component can reach: while the alert
    types are not initialized the index is empty, and while the index is
    empty [loadAlerts] has never been called, no call is pending, no alert is
    held and the total item count is 0; so the table has no row. *)
Theorem no_alerts_without_alert_types (events : list Event) :
  let w := run mount events in
  (AlertTypeState.isInitialized (alertTypesState (state w)) = false →
   AlertTypeState.data (alertTypesState (state w)) = ∅)
  ∧ (AlertTypeState.data (alertTypesState (state w)) = ∅ →
     loadAlertsCalls w = []
     ∧ pendingLoadAlerts w = []
     ∧ alertsState (state w) =
         {| AlertState.isLoading := AlertState.isLoading (alertsState (state w));
            AlertState.data := [];
            AlertState.totalItemCount := 0 |}
     ∧ loadedItems (state w) = []).
Proof.
  intros w. destruct (reachable_Synchronized events) as (Hinit & Hnone & _).
  split; [exact Hinit|]. intros Hempty.
  destruct (Hnone Hempty) as (Hcalls & Hdata & Htotal).
  destruct (reachable_Inv events) as (_ & _ & _ & Hphase).
  split; [done|]. split.
  { destruct Hphase as [(_ & _ & Hpending)|(_ & [Hpending|Hne])]; done. }
  split.
  - fold w in Hdata, Htotal. destruct (alertsState (state w)); simpl in *. congruence.
  - apply loadedItems_nil. exact Hdata.
Qed.

(** X5. In every world the mounted component can reach in which the index
    holds an alert type, [loadAlerts] has been called, and its last request
    is the one for the page, the committed search text and the two filters
    that the component holds: no change of the query is left without its
    request. *)
Theorem last_request_is_current_query (events : list Event) :
  let w := run mount events in
  AlertTypeState.data (alertTypesState (state w)) ≠ ∅ →
  last (loadAlertsCalls w) =
    Some {| LoadAlerts.page := page (state w);
            LoadAlerts.searchText := searchText (state w);
            LoadAlerts.typesFilter := typesFilter (state w);
            LoadAlerts.actionTypesFilter := actionTypesFilter (state w) |}.
Proof.
  intros w Hne. destruct (reachable_Synchronized events) as (_ & _ & Hlast).
  exact (Hlast Hne).
Qed.

Ltac bool_hyps :=
  repeat match goal with
  | H : negb _ = true |- _ => apply negb_true_iff in H
  | H : negb _ = false |- _ => apply negb_false_iff in H
  | H : bool_decide _ = true |- _ => apply bool_decide_eq_true in H
  | H : bool_decide _ = false |- _ => apply bool_decide_eq_false in H
  | H : _ && _ = true |- _ => apply andb_true_iff in H as [? ?]
  | H : _ || _ = false |- _ => apply orb_false_iff in H as [? ?]
  | H : foldl _ ∅ ?l = ∅ |- _ =>
      change (alertTypesIndexOf l = ∅) in H; apply alertTypesIndexOf_empty in H
  | H : foldl _ ∅ ?l ≠ ∅ |- _ =>
      change (alertTypesIndexOf l ≠ ∅) in H; rewrite alertTypesIndexOf_empty in H
  end.

Lemma step_loadAlertsCalls (w : World) (e : Event) :
  Inv w →
  loadAlertsCalls (step w e) =
    loadAlertsCalls w
      ++ (if refetches w e then [loadAlertsRequest (state (step w e))] else []).
Proof.
  intros [Hidle Hw]. unfold refetches.
  step_cases w e Hidle Hw; rewrite ?Htypes, ?Hk; simpl; rewrite ?Hreset; simpl.
  all: repeat case_decide.
  all: rewrite ?bool_decide_eq_true_2, ?bool_decide_eq_false_2 by done.
  all: simpl; rewrite ?app_nil_r; try done.
  all: repeat case_match; simpl in *; rewrite ?app_nil_r; try done.
  all: rewrite ?Hidle in *; simpl in *; bool_hyps; try done; try congruence.
Qed.

Lemma step_query (w : World) (e : Event) :
  Inv w →
  searchText (state (step w e)) =
    match e with
    | SearchFieldKeyUp keyCode =>
        if (keyCode =? ENTER_KEY)%Z then inputText (state w) else searchText (state w)
    | _ => searchText (state w)
    end
  ∧ inputText (state (step w e)) =
      match e with
      | SearchFieldChange value => Some value
      | _ => inputText (state w)
      end
  ∧ typesFilter (state (step w e)) =
      match e with
      | TypeFilterChange types => types
      | _ => typesFilter (state w)
      end
  ∧ actionTypesFilter (state (step w e)) =
      match e with
      | ActionTypeFilterChange ids => ids
      | _ => actionTypesFilter (state w)
      end
  ∧ page (state (step w e)) =
      match e with
      | TableChange changedPage => changedPage
      | LoadAlertsSettled n (Some alertsResponse) =>
          match pendingLoadAlerts w !! n with
          | Some (req, _, _) =>
              if negb (truthy (length (LoadAlerts.data alertsResponse)))
                 && (0 <? Pagination.index (LoadAlerts.page req))%Z
              then {| Pagination.index := 0;
                      Pagination.size := Pagination.size (LoadAlerts.page req) |}
              else page (state w)
          | None => page (state w)
          end
      | _ => page (state w)
      end.
Proof.
  intros [Hidle Hw].
  step_cases w e Hidle Hw; rewrite ?Htypes, ?Hk; simpl; rewrite ?Hreset; simpl.
  all: repeat case_decide; repeat case_match; simpl; done.
Qed.

Lemma step_others (w : World) (e : Event) :
  Inv w →
  actionTypes (state (step w e)) =
    match e with
    | LoadActionTypesSettled n (Some result) =>
        match pendingLoadActionTypes w !! n with
        | Some _ =>
            List.filter
              (fun actionType => actionTypeRegistryHas (ActionType.id actionType)) result
        | None => actionTypes (state w)
        end
    | _ => actionTypes (state w)
    end
  ∧ dangerToasts (step w e) =
      dangerToasts w ++
      match e with
      | LoadAlertTypesSettled n None =>
          match pendingLoadAlertTypes w !! n with
          | Some _ => ["Unable to load alert types"]
          | None => []
          end
      | LoadActionTypesSettled n None =>
          match pendingLoadActionTypes w !! n with
          | Some _ => ["Unable to load action types"]
          | None => []
          end
      | LoadAlertsSettled n None =>
          match pendingLoadAlerts w !! n with
          | Some _ => ["Unable to load alerts"]
          | None => []
          end
      | _ => []
      end
  ∧ isPerformingAction (state (step w e)) =
      match e with
      | PerformingAction => true
      | ActionPerformed => false
      | _ => isPerformingAction (state w)
      end
  ∧ alertFlyoutVisible (state (step w e)) =
      match e with
      | CreateAlertClick => true
      | SetAddFlyoutVisibility visible => visible
      | _ => alertFlyoutVisible (state w)
      end.
Proof.
  intros [Hidle Hw].
  step_cases w e Hidle Hw; rewrite ?Htypes, ?Hk; simpl; rewrite ?app_nil_r.
  all: repeat case_decide; repeat case_match; simpl; rewrite ?app_nil_r; done.
Qed.

(** ** The query and its requests *)

(** X6. In every world the mounted component can reach, each part of the
    query changes only through its own control: the committed search text on
    Enter, the type filter and the action-type filter on their change events,
    and the page on a page change of the table or when an empty page that was
    not the first comes back (then to index 0).  In particular committing a
    search or changing a filter keeps the current page, and no response,
    reload or deletion touches the search text or the filters. *)
Theorem query_changes_only_by_its_controls (events : list Event) (e : Event) :
  let w := run mount events in
  let w' := step w e in
  ((∀ keyCode, e ≠ SearchFieldKeyUp keyCode) → searchText (state w') = searchText (state w))
  ∧ ((∀ types, e ≠ TypeFilterChange types) → typesFilter (state w') = typesFilter (state w))
  ∧ ((∀ ids, e ≠ ActionTypeFilterChange ids) →
       actionTypesFilter (state w') = actionTypesFilter (state w))
  ∧ ((∀ changedPage, e ≠ TableChange changedPage) →
     (∀ n alertsResponse, e ≠ LoadAlertsSettled n (Some alertsResponse)) →
     page (state w') = page (state w))
  ∧ (∀ types, e = TypeFilterChange types →
       typesFilter (state w') = types ∧ page (state w') = page (state w))
  ∧ (∀ ids, e = ActionTypeFilterChange ids →
       actionTypesFilter (state w') = ids ∧ page (state w') = page (state w))
  ∧ (∀ changedPage, e = TableChange changedPage → page (state w') = changedPage).
Proof.
  intros w w'.
  destruct (step_query w e (reachable_Inv events))
    as (Hsearch & _ & Htypes & Hactions & Hpage).
  fold w' in Hsearch, Htypes, Hactions, Hpage.
  rewrite Hsearch, Htypes, Hactions, Hpage.
  split; [|split; [|split; [|split; [|split; [|split]]]]].
  - intros Hother. destruct e; try done. by destruct (Hother keyCode).
  - intros Hother. destruct e; try done. by destruct (Hother types).
  - intros Hother. destruct e; try done. by destruct (Hother ids).
  - intros Hother Hother'.
    destruct e as [| |n [alertsResponse|]| | | | | | | | | | | | | | | | |]; try done.
    + by destruct (Hother' n alertsResponse).
    + by destruct (Hother changedPage).
  - by intros types ->.
  - by intros ids ->.
  - by intros changedPage ->.
Qed.

(** X7. In every world the mounted component can reach, an event makes the
    component call [loadAlerts] at most once, and the request is then the one
    for the query that the component holds after the event.  A change of
    page, of the type filter or of the action-type filter calls it exactly
    when the index holds an alert type. *)
Theorem query_change_refetches (events : list Event) (e : Event) :
  let w := run mount events in
  let w' := step w e in
  (loadAlertsCalls w' = loadAlertsCalls w
   ∨ loadAlertsCalls w' = loadAlertsCalls w ++ [loadAlertsRequest (state w')])
  ∧ ((∃ changedPage, e = TableChange changedPage)
     ∨ (∃ types, e = TypeFilterChange types)
     ∨ (∃ ids, e = ActionTypeFilterChange ids) →
     (AlertTypeState.data (alertTypesState (state w)) = ∅ →
        loadAlertsCalls w' = loadAlertsCalls w)
     ∧ (AlertTypeState.data (alertTypesState (state w)) ≠ ∅ →
          loadAlertsCalls w' = loadAlertsCalls w ++ [loadAlertsRequest (state w')]
          ∧ AlertState.isLoading (alertsState (state w')) = true)).
Proof.
  intros w w'.
  pose proof (step_loadAlertsCalls w e (reachable_Inv events)) as Hcalls.
  fold w' in Hcalls. split.
  { rewrite Hcalls. destruct (refetches w e); [by right|left; by rewrite app_nil_r]. }
  intros Hchange.
  assert (Hrefetches : refetches w e =
            negb (bool_decide (AlertTypeState.data (alertTypesState (state w)) = ∅)))
    by (by destruct Hchange as [[? ->]|[[? ->]|[? ->]]]).
  rewrite Hcalls, Hrefetches. split.
  - intros Hempty. rewrite bool_decide_eq_true_2 by done. simpl. by rewrite app_nil_r.
  - intros Hne. rewrite bool_decide_eq_false_2 by done. simpl. split; [done|].
    destruct (reachable_Inv events) as [Hidle _]. fold w in Hidle.
    subst w'. unfold step.
    destruct Hchange as [[? ->]|[[? ->]|[? ->]]]; unfold dispatch, handle; simpl;
      rewrite flushEffects_cases; simpl; rewrite decide_False by done;
      by rewrite Hidle.
Qed.
(** Brings [step w e] to an explicit world for a given handler event, in a
    world at rest ([Hidle]). *)
Ltac step_event Hidle :=
  unfold step, dispatch, handle; simpl;
  rewrite ?exec_loadAlertsData, ?exec_andThen_loadAlertsData;
  rewrite flushEffects_cases; simpl; rewrite ?Hidle; simpl.

(** X8. In every world the mounted component can reach, Enter in the search
    field makes the component call [loadAlerts] exactly when the input buffer
    differs from the committed search text and the index holds an alert type;
    the request then carries the buffer as search text and the current page
    and filters.  No other keystroke of the search field calls [loadAlerts],
    and none of them, Enter with an unchanged text included, touches the
    pending calls or the alerts state. *)
Theorem search_refetches_when_text_changes (events : list Event) (key : Keystroke) :
  let w := run mount events in
  let w' := step w (keystrokeEvent key) in
  (key = KeyUp 13
   ∧ inputText (state w) ≠ searchText (state w)
   ∧ AlertTypeState.data (alertTypesState (state w)) ≠ ∅ →
   loadAlertsCalls w' =
     loadAlertsCalls w
       ++ [ {| LoadAlerts.page := page (state w);
               LoadAlerts.searchText := inputText (state w);
               LoadAlerts.typesFilter := typesFilter (state w);
               LoadAlerts.actionTypesFilter := actionTypesFilter (state w) |} ])
  ∧ (¬ (key = KeyUp 13
        ∧ inputText (state w) ≠ searchText (state w)
        ∧ AlertTypeState.data (alertTypesState (state w)) ≠ ∅) →
     loadAlertsCalls w' = loadAlertsCalls w
     ∧ pendingLoadAlerts w' = pendingLoadAlerts w
     ∧ alertsState (state w') = alertsState (state w)).
Proof.
  intros w w'. destruct (reachable_Inv events) as [Hidle _]. fold w in Hidle.
  subst w'. split.
  - intros (-> & Hchanged & Hne). step_event Hidle.
    rewrite bool_decide_eq_false_2 by done. simpl. by rewrite decide_False.
  - intros Hnot. destruct key as [value|keyCode]; step_event Hidle; [done|].
    unfold ENTER_KEY. destruct (Z.eqb_spec keyCode 13) as [->|Hkey]; simpl;
      rewrite ?Hidle; simpl; [|done].
    destruct (decide (inputText (state w) = searchText (state w))) as [Hsame|Hchanged].
    + by rewrite bool_decide_eq_true_2.
    + rewrite bool_decide_eq_false_2 by done. simpl.
      case_decide as Hindex; [done|]. by destruct Hnot.
Qed.

(** X9. In every world the mounted component can reach, each reload
    callback (a changed alert, a performed bulk action, a confirmed deletion,
    a deletion with errors, the reload of the add-alert flyout) calls
    [loadAlertsData] of the current render: with an empty index nothing is
    requested and the alerts state is untouched; otherwise [loadAlerts] is
    called once with the current query, the alerts state is loading, and the
    alerts and the total count already displayed stay until the response. *)
Theorem reload_callbacks (events : list Event) (e : Event) :
  let w := run mount events in
  let w' := step w e in
  e = AlertChanged ∨ e = ActionPerformed ∨ (∃ deleted, e = Deleted deleted)
  ∨ e = DeleteErrors ∨ e = ReloadAlerts →
  (AlertTypeState.data (alertTypesState (state w)) = ∅ →
   loadAlertsCalls w' = loadAlertsCalls w
   ∧ pendingLoadAlerts w' = pendingLoadAlerts w
   ∧ alertsState (state w') = alertsState (state w))
  ∧ (AlertTypeState.data (alertTypesState (state w)) ≠ ∅ →
     loadAlertsCalls w' = loadAlertsCalls w ++ [loadAlertsRequest (state w)]
     ∧ length (pendingLoadAlerts w') = S (length (pendingLoadAlerts w))
     ∧ alertsState (state w') =
         {| AlertState.isLoading := true;
            AlertState.data := AlertState.data (alertsState (state w));
            AlertState.totalItemCount :=
              AlertState.totalItemCount (alertsState (state w)) |}).
Proof.
  intros w w' Hreload. destruct (reachable_Inv events) as [Hidle _]. fold w in Hidle.
  subst w'.
  split; intros Hindex;
    destruct Hreload as [-> | [-> | [[deleted ->] | [-> | ->]]]]; step_event Hidle;
    first [rewrite !decide_True by done|rewrite !decide_False by done];
    simpl; rewrite ?Hidle, ?length_app; simpl; repeat split; try done; lia.
Qed.

(** ** The selection *)

(** X10. In every world the mounted component can reach, the selected ids
    change only when the table reports a new selection (they become the ids
    of the reported items) and when a deletion is confirmed (they are
    cleared).  A change of page or filter, a search, a reload and any
    response leave them, also when the selected alerts are no longer
    loaded. *)
Theorem selection_persists (events : list Event) (e : Event) :
  let w := run mount events in
  let w' := step w e in
  (∀ updatedSelectedItemsList,
     e = SelectionChange updatedSelectedItemsList →
     selectedIds (state w') = AlertTableItem.id <$> updatedSelectedItemsList)
  ∧ (∀ deleted, e = Deleted deleted → selectedIds (state w') = [])
  ∧ ((∀ updatedSelectedItemsList, e ≠ SelectionChange updatedSelectedItemsList) →
     (∀ deleted, e ≠ Deleted deleted) →
     selectedIds (state w') = selectedIds (state w)).
Proof.
  intros w w'. pose proof (step_selectedIds w e (reachable_Inv events)) as Hselected.
  fold w' in Hselected. rewrite Hselected.
  split; [by intros items ->|]. split; [by intros deleted ->|].
  intros Hother Hother'. destruct e; try done.
  - by destruct (Hother updatedSelectedItemsList).
  - by destruct (Hother' deleted).
Qed.

(** X11. In every world the mounted component can reach, a confirmed
    deletion clears the selection and the pending deletions, whatever the
    ids reported as deleted are; so the bulk-edit controls are not rendered
    until a new selection is made. *)
Theorem deletion_confirmed_clears (events : list Event) (deleted : list string) :
  let w := run mount events in
  let w' := step w (Deleted deleted) in
  selectedIds (state w') = []
  ∧ alertsToDelete (state w') = []
  ∧ bulkOperationPopover (table (state w')) = None
  ∧ ¬ bulkEditRendered (state w').
Proof.
  intros w w'. destruct (reachable_Inv events) as [Hidle _]. fold w in Hidle.
  assert (Hselected : selectedIds (state w') = [])
    by (subst w'; step_event Hidle;
        destruct (decide (AlertTypeState.data (alertTypesState (state w)) = ∅));
        simpl; rewrite ?Hidle; done).
  split; [done|]. split.
  { subst w'; step_event Hidle.
    destruct (decide (AlertTypeState.data (alertTypesState (state w)) = ∅));
      simpl; rewrite ?Hidle; done. }
  assert (Hnone : ¬ is_Some (bulkOperationPopover (table (state w')))).
  { rewrite bulkOperationPopover_is_Some. by intros [Hne _]. }
  split.
  - destruct (bulkOperationPopover (table (state w'))) eqn:Hpopover; [|done].
    destruct Hnone. by eexists.
  - rewrite bulkEditRendered_table. by intros [_ Hsome].
Qed.

(** X12. In every world the mounted component can reach, a deletion that
    reports errors reloads first and clears the pending deletions after the
    reload: with an empty index nothing is requested and they are cleared at
    once; otherwise [loadAlerts] is called, the pending deletions stay while
    the call is pending, and they are cleared when it settles, resolved or
    rejected.  The selection is kept throughout. *)
Theorem deletion_with_errors_reloads_then_clears
    (events : list Event) (result : option LoadAlerts.response) :
  let w := run mount events in
  let w1 := step w DeleteErrors in
  let w2 := step w1 (LoadAlertsSettled (length (pendingLoadAlerts w)) result) in
  (AlertTypeState.data (alertTypesState (state w)) = ∅ →
   alertsToDelete (state w1) = []
   ∧ loadAlertsCalls w1 = loadAlertsCalls w
   ∧ selectedIds (state w1) = selectedIds (state w))
  ∧ (AlertTypeState.data (alertTypesState (state w)) ≠ ∅ →
     alertsToDelete (state w1) = alertsToDelete (state w)
     ∧ loadAlertsCalls w1 = loadAlertsCalls w ++ [loadAlertsRequest (state w)]
     ∧ alertsToDelete (state w2) = []
     ∧ selectedIds (state w2) = selectedIds (state w)).
Proof.
  intros w w1 w2. destruct (reachable_Inv events) as [Hidle _]. fold w in Hidle.
  subst w2 w1. split; intros Hindex.
  - step_event Hidle. rewrite decide_True by done. simpl. rewrite ?Hidle. done.
  - assert (Hw1 : step w DeleteErrors =
        mkWorld
          (update (setAlertsState (AlertState.with_isLoading (alertsState (state w)) true))
                  (state w))
          false
          (pendingLoadAlerts w
             ++ [(loadAlertsRequest (state w),
                  fun alertsResponse =>
                    andThen (loadAlertsData_resolved (state w) alertsResponse)
                            (setAlertsToDelete [] ;; Return),
                  andThen (loadAlertsData_rejected (state w))
                          (setAlertsToDelete [] ;; Return))])
          (pendingLoadAlertTypes w) (pendingLoadActionTypes w)
          (loadAlertsCalls w ++ [loadAlertsRequest (state w)]) (dangerToasts w)).
    { step_event Hidle. rewrite decide_False by done. simpl. rewrite ?Hidle. done. }
    rewrite Hw1. simpl. split; [done|]. split; [done|].
    unfold step, dispatch. cbn [pendingLoadAlerts].
    rewrite lookup_pending_last, delete_pending_last.
    destruct result as [alertsResponse|]; cbn [settle fst snd];
      unfold loadAlertsData_resolved;
      try destruct (negb (truthy (length (LoadAlerts.data alertsResponse)))
                    && (0 <? Pagination.index (page (state w)))%Z);
      simpl; rewrite ?flushEffects_cases; simpl; repeat case_decide; done.
Qed.

(** The component gave up on the alert types: their promise is settled, the
    index is empty and no alert was ever asked for. *)
Lemma Unfetched_step (w : World) (e : Event) :
  Inv w →
  pendingLoadAlertTypes w = [] →
  pendingLoadAlerts w = [] →
  AlertTypeState.data (alertTypesState (state w)) = ∅ →
  pendingLoadAlertTypes (step w e) = []
  ∧ pendingLoadAlerts (step w e) = []
  ∧ alertTypesState (state (step w e)) = alertTypesState (state w)
  ∧ AlertState.data (alertsState (state (step w e))) = AlertState.data (alertsState (state w))
  ∧ loadAlertsCalls (step w e) = loadAlertsCalls w.
Proof.
  intros [Hidle Hw] Hsettled Halerts Hindex.
  step_cases w e Hidle Hw; rewrite ?Hidle; simpl.
  all: try (rewrite Hsettled in Htypes; discriminate).
  all: try (rewrite Halerts, lookup_nil in Hk; discriminate).
  all: repeat case_decide; repeat case_match; simpl in *; rewrite ?Hidle; simpl; done.
Qed.

(** X3. When the alert types are rejected after mount, one toast is raised
    and the alert-type state is the initial one again, not loading and not
    initialized, with an empty index.  It stays so whatever happens next:
    [loadAlerts] is never called, no alert is held, the table is given no
    item and no create button, and the component never shows the create
    prompt: it shows the table when a filter is applied, else the spinner
    while a bulk action has set the alerts state loading, else the
    permission prompt. *)
Theorem alertTypes_rejected_for_good (events : list Event) :
  let w0 := step mount (LoadAlertTypesSettled 0 None) in
  let w := run w0 events in
  dangerToasts w0 = ["Unable to load alert types"]
  ∧ alertTypesState (state w) = alertTypesState initialState
  ∧ AlertState.data (alertsState (state w)) = []
  ∧ loadAlertsCalls w = []
  ∧ items (table (state w)) = []
  ∧ (CreateAlertButton ∉ toolsRight (table (state w)))
  ∧ render (state w) =
      (if isFilterApplied (state w) then TableView (table (state w))
       else if AlertState.isLoading (alertsState (state w)) then LoadingSpinner
       else noPermissionPrompt).
Proof.
  intros w0 w.
  assert (Hw0 : w0 =
    mkWorld initialState false [] []
      [(loadActionTypes_resolved actionTypeRegistryHas, loadActionTypes_rejected)]
      [] ["Unable to load alert types"]).
  { subst w0. rewrite mount_world. unfold step, dispatch. simpl.
    by rewrite flushEffects_unauthorized. }
  assert (Hinv0 : Inv w0) by apply Inv_step, Inv_mount.
  assert (Hrun : pendingLoadAlertTypes w = [] ∧ pendingLoadAlerts w = []
                 ∧ alertTypesState (state w) = alertTypesState initialState
                 ∧ AlertState.data (alertsState (state w)) = []
                 ∧ loadAlertsCalls w = []).
  { subst w. induction events as [|e events IH] using rev_ind.
    - by rewrite Hw0.
    - rewrite run_snoc. destruct IH as (Htypes & Halerts & Hstate & Hdata & Hcalls).
      destruct (Unfetched_step (run w0 events) e) as (-> & -> & -> & -> & ->);
        try done; [by apply Inv_run|by rewrite Hstate]. }
  destruct Hrun as (_ & _ & Hstate & Hdata & Hcalls).
  assert (Hcreate : authorizedToCreateAnyAlerts (state w) = false).
  { apply authorizedToCreateAnyAlerts_false. rewrite Hstate.
    intros (typeId & alertType & privileges & Hlookup & _).
    simpl in Hlookup. by rewrite lookup_empty in Hlookup. }
  split; [by rewrite Hw0|]. split; [done|]. split; [done|]. split; [done|].
  split; [by unfold table; simpl; rewrite Hstate|].
  split.
  - unfold table. simpl. rewrite Hcreate. simpl.
    rewrite !elem_of_cons, elem_of_nil. by intros [?|[?|?]].
  - unfold render, loadedItems. rewrite Hdata, Hstate, Hcreate. simpl.
    destruct (isFilterApplied (state w)); [done|].
    by destruct (AlertState.isLoading (alertsState (state w))).
Qed.

(** Settling a pending [loadAlerts] promise removes it from the pending
    ones, which keep their order; the call it may cause comes last. *)
Lemma step_settled_pending
    (w : World) (n : nat) (k : LoadAlerts.request * (LoadAlerts.response → Prog) * Prog)
    (result : option LoadAlerts.response) :
  Inv w →
  pendingLoadAlerts w !! n = Some k →
  ∃ called,
    pendingLoadAlerts (step w (LoadAlertsSettled n result)) =
      delete n (pendingLoadAlerts w) ++ called.
Proof.
  intros [Hidle Hw] Hk. destruct k as [[req resolved] rejected].
  destruct (dispatch_LoadAlertsSettled w n req resolved rejected result Hw Hk)
    as (r & rest & -> & Hquiet & Hne & Hdispatch).
  unfold step. rewrite Hdispatch.
  destruct Hquiet as [-> | ->]; destruct result as [alertsResponse|];
    unfold loadAlertsData_resolved;
    try destruct (negb (truthy (length (LoadAlerts.data alertsResponse)))
                  && (0 <? Pagination.index (page r))%Z);
    simpl; rewrite ?flushEffects_cases; simpl; rewrite ?Hidle; simpl;
    repeat case_decide; simpl;
    first [by exists []; rewrite app_nil_r | by eexists [_]].
Qed.

(** X13. Responses are applied in the order in which they settle, not in the
    order of the calls.  In every world the mounted component can reach, if
    two [loadAlerts] calls are pending and the later one resolves before the
    earlier one, the alerts held at the end are those of the earlier call;
    and when neither response is empty the page and the calls made are as
    before, so that the alerts held are not those of the last request. *)
Theorem responses_apply_in_settling_order
    (events : list Event) (n m : nat) (older newer : LoadAlerts.response) :
  let w := run mount events in
  (n < m)%nat →
  is_Some (pendingLoadAlerts w !! n) →
  is_Some (pendingLoadAlerts w !! m) →
  let w1 := step w (LoadAlertsSettled m (Some newer)) in
  let w2 := step w1 (LoadAlertsSettled n (Some older)) in
  AlertState.data (alertsState (state w1)) = LoadAlerts.data newer
  ∧ AlertState.data (alertsState (state w2)) = LoadAlerts.data older
  ∧ AlertState.totalItemCount (alertsState (state w2)) = LoadAlerts.total older
  ∧ (LoadAlerts.data newer ≠ [] →
     LoadAlerts.data older ≠ [] →
     page (state w2) = page (state w) ∧ loadAlertsCalls w2 = loadAlertsCalls w).
Proof.
  intros w Hlt [[[reqn resolvedn] rejectedn] Hn] [[[reqm resolvedm] rejectedm] Hm] w1 w2.
  assert (Hw : Inv w) by apply reachable_Inv.
  assert (Hw1 : Inv w1) by apply Inv_step, Hw.
  destruct (step_loadAlerts_resolved w m reqm resolvedm rejectedm newer Hw Hm)
    as (Hdata1 & _ & _ & Hsame1).
  destruct (step_settled_pending w m _ (Some newer) Hw Hm) as [called Hpending].
  assert (Hn1 : pendingLoadAlerts w1 !! n = Some (reqn, resolvedn, rejectedn)).
  { subst w1. rewrite Hpending. apply lookup_app_l_Some.
    by rewrite list_lookup_delete_lt. }
  destruct (step_loadAlerts_resolved w1 n reqn resolvedn rejectedn older Hw1 Hn1)
    as (Hdata2 & Htotal2 & _ & Hsame2).
  split; [done|]. split; [done|]. split; [done|].
  intros Hnewer Holder.
  destruct (Hsame1 (or_introl Hnewer)) as [Hpage1 Hcalls1].
  destruct (Hsame2 (or_introl Holder)) as [Hpage2 Hcalls2].
  fold w1 in Hpage1, Hcalls1. fold w2 in Hpage2, Hcalls2.
  split; congruence.
Qed.

(** X14. Every action type the mounted component holds is registered in the
    action-type registry, whatever happens; the action types arriving never
    make the component call [loadAlerts], and when they arrive after mount
    the ones held are the registered ones of the response, in its order. *)
Theorem actionTypes_are_registered
    (events : list Event) (n : nat) (result : option (list ActionType.t))
    (actionTypes' : list ActionType.t) :
  let w := run mount events in
  Forall (fun actionType => actionTypeRegistryHas (ActionType.id actionType) = true)
         (actionTypes (state w))
  ∧ loadAlertsCalls (step w (LoadActionTypesSettled n result)) = loadAlertsCalls w
  ∧ actionTypes (state (step mount (LoadActionTypesSettled 0 (Some actionTypes')))) =
      List.filter (fun actionType => actionTypeRegistryHas (ActionType.id actionType))
                  actionTypes'.
Proof.
  intros w. split; [|split].
  - subst w. induction events as [|e events IH] using rev_ind.
    + rewrite mount_world. constructor.
    + rewrite run_snoc.
      destruct (step_others (run mount events) e (reachable_Inv events)) as (-> & _).
      destruct e as [| k [registered|] | | | | | | | | | | | | | | | | | |]; try done.
      destruct (pendingLoadActionTypes (run mount events) !! k); [|done].
      apply Forall_forall. intros actionType Hin.
      by apply list_elem_of_In, filter_In in Hin as [_ Hin].
  - rewrite (step_loadAlertsCalls w _ (reachable_Inv events)). simpl.
    apply app_nil_r.
  - destruct (step_others mount (LoadActionTypesSettled 0 (Some actionTypes')) Inv_mount)
      as (-> & _).
    by rewrite mount_world.
Qed.

(** X15. The toasts of the mounted component are raised by rejections only:
    each toast is one of the three messages, and there are no more toasts
    than settled promises that were rejected. *)
Theorem toasts_come_from_rejections (events : list Event) :
  let rejection e :=
    match e with
    | LoadAlertTypesSettled _ None | LoadActionTypesSettled _ None
    | LoadAlertsSettled _ None => true
    | _ => false
    end in
  let w := run mount events in
  Forall (fun toast => toast ∈ ["Unable to load alert types";
                                "Unable to load action types";
                                "Unable to load alerts"])
         (dangerToasts w)
  ∧ (length (dangerToasts w) ≤ length (List.filter rejection events))%nat.
Proof.
  intros rejection w. subst w.
  induction events as [|e events [IHmessages IHcount]] using rev_ind.
  - rewrite mount_world. split; [constructor|done].
  - rewrite run_snoc.
    destruct (step_others (run mount events) e (reachable_Inv events)) as (_ & -> & _).
    rewrite List.filter_app, !length_app, Forall_app. simpl.
    destruct e as [k [?|]|k [?|]|k [?|]| | | | | | | | | | | | | | | | |]; simpl;
      try (split; [split; [done|constructor]|lia]).
    all: match goal with |- context [?pending !! ?i] => destruct (pending !! i) end.
    all: split; [split; [done|]|simpl; lia].
    all: repeat constructor; rewrite !elem_of_cons; auto.
Qed.

Lemma convertAlertsToTableItems_filterAlertsById
    (alerts : list Alert.t) (ids : list string)
    (alertTypesIndex : AlertTypeIndex) (canExecute : bool) :
  convertAlertsToTableItems (filterAlertsById alerts ids)
    alertTypesIndex canExecute =
  List.filter (fun item => includes ids (AlertTableItem.id item))
    (convertAlertsToTableItems alerts alertTypesIndex canExecute).
Proof.
  unfold convertAlertsToTableItems, filterAlertsById.
  induction alerts as [|alert alerts IH]; [done|]. simpl.
  change (AlertTableItem.id (convertAlertToTableItem alertTypesIndex canExecute alert))
    with (Alert.id alert).
  destruct (includes ids (Alert.id alert)); simpl; by rewrite IH.
Qed.

(** X16. When the table fragment holds the bulk-operation popover, the
    selected items it is given are the rows of the loaded alerts whose id is
    selected, in the order of the rows; each of them is of an alert that
    passes the privilege check, so it is editable exactly when actions can
    be executed or the alert has none. *)
Theorem bulk_selected_items (s : State) (selectedItems : list AlertTableItem.t) :
  bulkOperationPopover (table s) = Some selectedItems →
  selectedItems =
    List.filter (fun item => includes (selectedIds s) (AlertTableItem.id item))
                (loadedItems s)
  ∧ Forall
      (fun item =>
         AlertTableItem.id item ∈ selectedIds s
         ∧ (AlertTableItem.isEditable item = true ↔
            canExecuteActions = true ∨ Alert.actions (AlertTableItem.alert item) = []))
      selectedItems.
Proof.
  unfold table. simpl.
  destruct ((0 <? length (selectedIds s))%nat
            && authorizedToModifySelectedAlerts s) eqn:Hshown; [|done].
  intros [= <-]. apply andb_true_iff in Hshown as [_ Hauthorized].
  apply authorizedToModifySelectedAlerts_true in Hauthorized as [_ Hall].
  split; [apply convertAlertsToTableItems_filterAlertsById|].
  apply Forall_forall. intros item Hitem.
  apply list_elem_of_In, in_map_iff in Hitem as (alert & <- & Halert).
  apply list_elem_of_In, elem_of_filterAlertsById in Halert as [Halert Hid].
  split; [done|]. simpl. rewrite (Hall alert Halert Hid). simpl.
  rewrite orb_true_iff, andb_true_iff, !negb_true_iff, not_truthy_length.
  destruct canExecuteActions; split; auto.
  - by intros [?|[_ ?]]; [|right].
  - intros [?|?]; [done|by right].
Qed.

(** Only the settling of the alert-type promise touches the alert-type state
    and the promise. *)
Lemma step_alertTypesState (w : World) (e : Event) :
  Inv w →
  (pendingLoadAlertTypes (step w e), alertTypesState (state (step w e))) =
    match e, pendingLoadAlertTypes w with
    | LoadAlertTypesSettled 0 (Some alertTypes), _ :: _ =>
        ([], {| AlertTypeState.isLoading := false;
                AlertTypeState.isInitialized := true;
                AlertTypeState.data := alertTypesIndexOf alertTypes |})
    | LoadAlertTypesSettled 0 None, _ :: _ =>
        ([], AlertTypeState.with_isLoading (alertTypesState initialState) false)
    | _, _ => (pendingLoadAlertTypes w, alertTypesState (state w))
    end.
Proof.
  intros [Hidle Hw].
  step_cases w e Hidle Hw; rewrite ?Hidle, ?Htypes; simpl.
  all: repeat case_decide; repeat case_match; simpl in *; rewrite ?Hidle, ?Htypes; simpl.
  all: done.
Qed.

(** X17. The alert types are asked for once, and the alert-type state tells
    whether the answer is pending: in every world the mounted component can
    reach, either the promise is pending, the state is loading and not
    initialized, or the promise has settled and the state is not loading. *)
Theorem alertTypes_loading_tracks_promise (events : list Event) :
  let w := run mount events in
  (length (pendingLoadAlertTypes w) ≤ 1)%nat
  ∧ AlertTypeState.isLoading (alertTypesState (state w)) =
      negb (bool_decide (pendingLoadAlertTypes w = []))
  ∧ (AlertTypeState.isInitialized (alertTypesState (state w)) = true →
     pendingLoadAlertTypes w = []).
Proof.
  intros w. subst w. induction events as [|e events IH] using rev_ind.
  - rewrite mount_world. simpl. split; [lia|]. split; done.
  - rewrite run_snoc.
    pose proof (step_alertTypesState (run mount events) e (reachable_Inv events)) as Hstep.
    destruct IH as (Honce & Hloading & Hinitialized).
    destruct (step (run mount events) e) as [s' ? ? types' ? ? ?]. simpl in *.
    destruct e as [[|k] [alertTypes|]| | | | | | | | | | | | | | | | | | |];
      try (injection Hstep as -> ->; done).
    all: destruct (pendingLoadAlertTypes (run mount events)) as [|pending rest] eqn:Htypes;
      injection Hstep as -> ->; simpl in *; try done.
    all: split; [lia|done].
Qed.

(** ** A failing [loadAlerts] call *)

(** The rejection of a pending call runs the [catch] block of the render
    that made the call. *)
Lemma step_loadAlerts_rejected
    (w : World) (n : nat) (req : LoadAlerts.request)
    (resolved : LoadAlerts.response → Prog) (r : State) (rest : Prog) :
  Inv w →
  quiet rest →
  pendingLoadAlerts w !! n =
    Some (req, resolved, andThen (loadAlertsData_rejected r) rest) →
  let failed := step w (LoadAlertsSettled n None) in
  dangerToasts failed = dangerToasts w ++ ["Unable to load alerts"]
  ∧ alertsState (state failed) = AlertState.with_isLoading (alertsState r) false
  ∧ loadAlertsCalls failed = loadAlertsCalls w
  ∧ pendingLoadAlerts failed = delete n (pendingLoadAlerts w).
Proof.
  intros [Hidle _] Hquiet Hk. simpl. unfold step, dispatch. rewrite Hk.
  destruct Hquiet as [-> | ->]; simpl; rewrite flushEffects_cases; simpl;
    by rewrite Hidle.
Qed.

(** An event that makes the component call [loadAlerts] leaves the call last
    among the pending ones, made by a render that holds the alerts and the
    total count displayed after the event. *)
Lemma step_call_made (w : World) (e : Event) :
  Inv w →
  loadAlertsCalls (step w e) ≠ loadAlertsCalls w →
  ∃ before req resolved r rest,
    pendingLoadAlerts (step w e) =
      before ++ [(req, resolved, andThen (loadAlertsData_rejected r) rest)]
    ∧ quiet rest
    ∧ AlertState.data (alertsState r) = AlertState.data (alertsState (state (step w e)))
    ∧ AlertState.totalItemCount (alertsState r) =
        AlertState.totalItemCount (alertsState (state (step w e))).
Proof.
  intros [Hidle Hw].
  step_cases w e Hidle Hw; rewrite ?Hidle; simpl.
  all: repeat case_decide; repeat case_match; simpl; rewrite ?Hidle; simpl.
  all: intros Hcall; try done.
  all: lazymatch goal with
       | |- context [?l ++ [(?q, ?k, loadAlertsData_rejected ?s)]] =>
           exists l, q, k, s, Return
       | |- context [?l ++ [(?q, ?k, andThen (loadAlertsData_rejected ?s) ?p)]] =>
           exists l, q, k, s, p
       | |- context [?l ++ [(?q, ?k,
                              (addDanger _ ;;
                               setAlertsState
                                 (AlertState.with_isLoading (alertsState ?s) false) ;;
                               ?p))]] =>
           exists l, q, k, s, p
       end.
  all: split; [done|]; split; [by (left + right)|done].
Qed.

(** Events that settle no [loadAlerts] promise keep the pending calls where
    they are, and the alerts and the total count held. *)
Lemma step_keeps_alerts (w : World) (e : Event) :
  Inv w →
  settlesLoadAlerts e = false →
  (∃ called, pendingLoadAlerts (step w e) = pendingLoadAlerts w ++ called)
  ∧ AlertState.data (alertsState (state (step w e))) = AlertState.data (alertsState (state w))
  ∧ AlertState.totalItemCount (alertsState (state (step w e))) =
      AlertState.totalItemCount (alertsState (state w)).
Proof.
  intros [Hidle Hw] Hsettles.
  step_cases w e Hidle Hw; try discriminate Hsettles; rewrite ?Hidle; simpl.
  all: repeat case_decide; repeat case_match; simpl; rewrite ?Hidle; simpl.
  all: (split; [|done]); first [by exists []; rewrite app_nil_r | by eexists [_]].
Qed.

Lemma run_keeps_alerts (w : World) (events : list Event) :
  Inv w →
  Forall (fun e => settlesLoadAlerts e = false) events →
  (∃ called, pendingLoadAlerts (run w events) = pendingLoadAlerts w ++ called)
  ∧ AlertState.data (alertsState (state (run w events))) = AlertState.data (alertsState (state w))
  ∧ AlertState.totalItemCount (alertsState (state (run w events))) =
      AlertState.totalItemCount (alertsState (state w)).
Proof.
  intros Hw. induction events as [|e events IH] using rev_ind; intros Hevents.
  - split; [|done]. exists []. by rewrite app_nil_r.
  - apply Forall_app in Hevents as [Hevents He]. apply Forall_inv in He.
    destruct (IH Hevents) as ([called Hpending] & Hdata & Htotal).
    rewrite run_snoc.
    destruct (step_keeps_alerts (run w events) e (Inv_run w events Hw) He)
      as ([called' ->] & -> & ->).
    split; [|done]. exists (called ++ called'). by rewrite Hpending, app_assoc.
Qed.

(** C5, as the code has it.  In every world the mounted component can
    reach, the rejection of a pending [loadAlerts] call raises exactly one
    danger toast ("Unable to load alerts"), leaves the alerts state not
    loading and makes no further call.  The [catch] block restores the alerts
    state of the render that made the call: when no [loadAlerts] promise has
    settled between the call and its rejection, the alerts and the total
    item count displayed before the rejection are left as they are. *)
Theorem loadAlerts_rejected
    (events : list Event) (m : nat) (e : Event) (later : list Event) :
  let w := run mount events in
  (is_Some (pendingLoadAlerts w !! m) →
   let failed := step w (LoadAlertsSettled m None) in
   dangerToasts failed = dangerToasts w ++ ["Unable to load alerts"]
   ∧ AlertState.isLoading (alertsState (state failed)) = false
   ∧ loadAlertsCalls failed = loadAlertsCalls w
   ∧ pendingLoadAlerts failed = delete m (pendingLoadAlerts w))
  ∧ (let called := step w e in
     let n := (length (pendingLoadAlerts called) - 1)%nat in
     let displayed := run called later in
     let failed := step displayed (LoadAlertsSettled n None) in
     loadAlertsCalls called ≠ loadAlertsCalls w →
     Forall (fun e => settlesLoadAlerts e = false) later →
     dangerToasts failed = dangerToasts displayed ++ ["Unable to load alerts"]
     ∧ AlertState.isLoading (alertsState (state failed)) = false
     ∧ AlertState.data (alertsState (state failed)) =
         AlertState.data (alertsState (state displayed))
     ∧ AlertState.totalItemCount (alertsState (state failed)) =
         AlertState.totalItemCount (alertsState (state displayed))
     ∧ loadAlertsCalls failed = loadAlertsCalls displayed).
Proof.
  intros w. assert (Hw : Inv w) by apply reachable_Inv. split.
  - intros [[[req resolved] rejected] Hk].
    destruct Hw as [Hidle Hw].
    destruct (dispatch_LoadAlertsSettled w m req resolved rejected None Hw Hk)
      as (r & rest & _ & Hquiet & _ & Hdispatch).
    simpl. unfold step. rewrite Hdispatch.
    destruct Hquiet as [-> | ->]; simpl; rewrite flushEffects_cases; simpl;
      by rewrite Hidle.
  - intros called n displayed failed Hcall Hlater.
    assert (Hcalled : Inv called) by apply Inv_step, Hw.
    destruct (step_call_made w e Hw Hcall)
      as (before & req & resolved & r & rest & Hpending & Hquiet & Hdata & Htotal).
    fold called in Hpending, Hdata, Htotal.
    destruct (run_keeps_alerts called later Hcalled Hlater)
      as ([called' Hpending'] & Hdata' & Htotal').
    fold displayed in Hpending', Hdata', Htotal'.
    assert (Hn : n = length before).
    { subst n. rewrite Hpending, length_app. simpl. lia. }
    assert (Hk : pendingLoadAlerts displayed !! n =
                 Some (req, resolved, andThen (loadAlertsData_rejected r) rest)).
    { rewrite Hpending', Hpending, Hn. apply lookup_app_l_Some, lookup_pending_last. }
    destruct (step_loadAlerts_rejected displayed n req resolved r rest
                (Inv_run called later Hcalled) Hquiet Hk)
      as (Htoasts & Hstate & Hcalls & _).
    fold failed in Htoasts, Hstate, Hcalls.
    rewrite Hstate. simpl. rewrite Hdata', Htotal'. done.
Qed.

End Properties.

(** * Examples

    The statements above at the sample deployment. *)

(** No alert type is known just after mount: [loadAlertsData] does nothing. *)
Lemma loadAlertsData_without_alert_types_witness :
  AlertTypeState.data (alertTypesState (state Sample.mounted)) = ∅
  ∧ calls (loadAlertsData (state Sample.mounted)) = []
  ∧ exec (loadAlertsData (state Sample.mounted)) Sample.mounted = Sample.mounted
  ∧ loadAlertsCalls (exec (loadAlertsData (state Sample.mounted)) Sample.mounted) =
      loadAlertsCalls Sample.mounted
  ∧ pendingLoadAlerts (exec (loadAlertsData (state Sample.mounted)) Sample.mounted) =
      pendingLoadAlerts Sample.mounted
  ∧ alertsState (state (exec (loadAlertsData (state Sample.mounted)) Sample.mounted)) =
      alertsState (state Sample.mounted).
Proof.
  assert (Hempty : AlertTypeState.data (alertTypesState (state Sample.mounted)) = ∅)
    by reflexivity.
  split; [exact Hempty|].
  exact (loadAlertsData_without_alert_types (state Sample.mounted) Sample.mounted Hempty).
Defined.

(** The fourth page comes back empty: the page is reset and page 0 is
    requested. *)
Lemma empty_page_resets_witness :
  let w := run Sample.mounted Sample.toFourthPage in
  let r := Sample.fourthPageRender in
  let w' := step w (LoadAlertsSettled 0 (Some (Sample.response []))) in
  pendingLoadAlerts w !! 0%nat =
    Some (loadAlertsRequest r, loadAlertsData_resolved r, loadAlertsData_rejected r)
  ∧ (0 < Pagination.index (LoadAlerts.page (loadAlertsRequest r)))%Z
  ∧ page (state w') =
      {| Pagination.index := 0;
         Pagination.size := Pagination.size (LoadAlerts.page (loadAlertsRequest r)) |}
  ∧ loadAlertsCalls w' = loadAlertsCalls w ++ [loadAlertsRequest (state w')].
Proof.
  intros w r w'.
  assert (Hpending : pendingLoadAlerts w !! 0%nat =
            Some (loadAlertsRequest r, loadAlertsData_resolved r, loadAlertsData_rejected r))
    by (vm_compute; reflexivity).
  assert (Hpositive : (0 < Pagination.index (LoadAlerts.page (loadAlertsRequest r)))%Z)
    by (vm_compute; reflexivity).
  split; [exact Hpending|]. split; [exact Hpositive|].
  exact (proj1 (proj2 (proj2
           (empty_page_resets 10 (fun _ => true) Sample.toFourthPage 0 _ _ _
              (Sample.response []) Hpending)))
           eq_refl Hpositive).
Defined.

(** The first page is displayed and a reload is asked for; the viewer types
    in the search field and starts a bulk action, then the reload fails: one
    toast, and the two alerts stay. *)
Lemma loadAlerts_rejected_witness :
  let w := run Sample.mounted Sample.firstPageLoaded in
  let called := step w ReloadAlerts in
  let n := (length (pendingLoadAlerts called) - 1)%nat in
  let displayed := run called Sample.whileReloading in
  let failed := step displayed (LoadAlertsSettled n None) in
  (loadAlertsCalls called ≠ loadAlertsCalls w
   ∧ n = 0%nat
   ∧ AlertState.data (alertsState (state displayed)) = [Sample.cpu; Sample.disk]
   ∧ dangerToasts displayed = [])
  ∧ dangerToasts failed = dangerToasts displayed ++ ["Unable to load alerts"]
  ∧ AlertState.isLoading (alertsState (state failed)) = false
  ∧ AlertState.data (alertsState (state failed)) =
      AlertState.data (alertsState (state displayed))
  ∧ AlertState.totalItemCount (alertsState (state failed)) =
      AlertState.totalItemCount (alertsState (state displayed)).
Proof.
  intros w called n displayed failed.
  assert (Hcall : loadAlertsCalls called ≠ loadAlertsCalls w)
    by (vm_compute; discriminate).
  assert (Hlater : Forall (fun e => settlesLoadAlerts e = false) Sample.whileReloading)
    by (repeat constructor).
  split.
  { split; [exact Hcall|]. repeat split; vm_compute; reflexivity. }
  destruct (proj2 (loadAlerts_rejected 10 (fun _ => true) Sample.firstPageLoaded 0
                     ReloadAlerts Sample.whileReloading) Hcall Hlater)
    as (Htoasts & Hloading & Hdata & Htotal & _).
  split; [exact Htoasts|]. split; [exact Hloading|]. split; [exact Hdata|exact Htotal].
Defined.

(** C5 as stated fails when two calls overlap.  The second page comes back
    while the call for the first page is pending, and one alert is
    displayed, with a total item count of 1; then the call for the first page
    fails: one toast is raised, and the alerts state is the one of the render
    that made that call, with no alert and a total item count of 0. *)
Lemma rejection_overwrites_newer_response :
  let w := run Sample.mounted Sample.secondPageLoadedFirst in
  let failed := step w (LoadAlertsSettled 0 None) in
  (AlertTypeState.data (alertTypesState (state w)) ≠ ∅
   ∧ length (pendingLoadAlerts w) = 1%nat
   ∧ AlertState.data (alertsState (state w)) = [Sample.ping]
   ∧ AlertState.totalItemCount (alertsState (state w)) = 1%Z
   ∧ dangerToasts w = [])
  ∧ dangerToasts failed = ["Unable to load alerts"]
  ∧ AlertState.isLoading (alertsState (state failed)) = false
  ∧ AlertState.data (alertsState (state failed)) = []
  ∧ AlertState.totalItemCount (alertsState (state failed)) = 0%Z.
Proof.
  intros w failed. split.
  - split; [vm_compute; discriminate|]. repeat split; vm_compute; reflexivity.
  - repeat split; vm_compute; reflexivity.
Qed.

(** A viewer who may only read sees no create button and, with nothing to
    list, the permission-denied prompt. *)
Lemma no_create_privilege_witness :
  let s := state (run Sample.mounted Sample.readOnlyViewer) in
  (¬ mayCreateSomeAlertType "alerts" (AlertTypeState.data (alertTypesState s))
   ∧ emptyState s)
  ∧ (CreateAlertButton ∉ toolsRight (table "alerts" Sample.hasAllPrivilege true s))
  ∧ render "alerts" Sample.hasAllPrivilege true s = noPermissionPrompt.
Proof.
  intros s.
  assert (Hnone : ¬ mayCreateSomeAlertType "alerts"
                      (AlertTypeState.data (alertTypesState s)))
    by (apply authorizedToCreateAnyAlerts_false; vm_compute; reflexivity).
  assert (Hempty : emptyState s)
    by (split; [left|repeat split]; vm_compute; reflexivity).
  split; [by split|].
  destruct (no_create_privilege "alerts" Sample.hasAllPrivilege true s Hnone)
    as (Hbutton & _ & Hprompt).
  split; [exact Hbutton|exact (proj1 (Hprompt Hempty))].
Defined.

(** The selection refers to an alert of the previous page: the check passes
    over no alert, and the controls are rendered with the table. *)
Lemma selection_of_no_loaded_alert_witness :
  let s := state (run Sample.mounted Sample.selectionOnAnotherPage) in
  (selectedIds s = ["a2"] ∧ AlertState.data (alertsState s) = [Sample.ping])
  ∧ authorizedToModifySelectedAlerts Sample.hasAllPrivilege s = true
  ∧ bulkEditRendered "alerts" Sample.hasAllPrivilege true s.
Proof.
  intros s.
  assert (Hselected : selectedIds s ≠ []) by (vm_compute; discriminate).
  assert (Hnone : ∀ alert, alert ∈ AlertState.data (alertsState s) →
                           Alert.id alert ∉ selectedIds s)
    by (apply selection_disjoint; vm_compute; reflexivity).
  split; [split; vm_compute; reflexivity|].
  destruct (selection_of_no_loaded_alert "alerts" Sample.hasAllPrivilege true s
              Hselected Hnone) as (Hauthorized & _ & Hrendered).
  split; [exact Hauthorized|].
  apply Hrendered, tableShown_true. vm_compute. reflexivity.
Defined.

(** C7 as stated fails in both directions of reading "every selected alert
    passes".  When the selection outlives the alerts, a row id is selected
    and every loaded alert whose id is selected passes the check (none is
    loaded), yet the component returns the create prompt, without the
    bulk-edit controls.  And when the selected id is the id of an alert of
    another page, no loaded alert has been checked for it, yet the controls
    are rendered. *)
Lemma bulkEdit_not_rendered_without_table :
  let s := state (run Sample.mounted Sample.selectionOutlivesAlerts) in
  let s' := state (run Sample.mounted Sample.selectionOnAnotherPage) in
  ((selectedIds s ≠ [] ∧ selectedAlertsAuthorized Sample.hasAllPrivilege s)
   ∧ render "alerts" Sample.hasAllPrivilege true s = EmptyPrompt
   ∧ ¬ bulkEditRendered "alerts" Sample.hasAllPrivilege true s
   ∧ ¬ (bulkEditRendered "alerts" Sample.hasAllPrivilege true s ↔
          selectedIds s ≠ [] ∧ selectedAlertsAuthorized Sample.hasAllPrivilege s))
  ∧ (selectedIds s' = ["a2"]
     ∧ Alert.id <$> AlertState.data (alertsState s') = ["a3"]
     ∧ bulkEditRendered "alerts" Sample.hasAllPrivilege true s').
Proof.
  intros s s'.
  assert (Hselection : selectedIds s ≠ [] ∧ selectedAlertsAuthorized Sample.hasAllPrivilege s)
    by (apply authorizedToModifySelectedAlerts_true; vm_compute; reflexivity).
  assert (Hrender : render "alerts" Sample.hasAllPrivilege true s = EmptyPrompt)
    by (vm_compute; reflexivity).
  assert (Hhidden : ¬ bulkEditRendered "alerts" Sample.hasAllPrivilege true s).
  { intros (t & Htable & _). rewrite Hrender in Htable. discriminate. }
  split.
  - split; [exact Hselection|]. split; [exact Hrender|]. split; [exact Hhidden|].
    intros [_ Hclaim]. exact (Hhidden (Hclaim Hselection)).
  - split; [vm_compute; reflexivity|]. split; [vm_compute; reflexivity|].
    exists (table "alerts" Sample.hasAllPrivilege true s').
    split; [vm_compute; reflexivity|]. exists []. vm_compute. reflexivity.
Qed.

(** C10 as stated fails when the reload after a failed deletion finds no
    alert: the selection is not empty and refers to no loaded alert, the
    check is true, yet the component returns the create prompt, without the
    bulk-edit controls. *)
Lemma stale_selection_not_rendered :
  let s := state (run Sample.mounted Sample.deleteReportsErrors) in
  selectedIds s = ["a1"; "a2"]
  ∧ AlertState.data (alertsState s) = []
  ∧ authorizedToModifySelectedAlerts Sample.hasAllPrivilege s = true
  ∧ render "alerts" Sample.hasAllPrivilege true s = EmptyPrompt
  ∧ ¬ bulkEditRendered "alerts" Sample.hasAllPrivilege true s.
Proof.
  intros s.
  assert (Hrender : render "alerts" Sample.hasAllPrivilege true s = EmptyPrompt)
    by (vm_compute; reflexivity).
  repeat split; try (vm_compute; reflexivity).
  intros (t & Htable & _). rewrite Hrender in Htable. discriminate.
Qed.

(** C9 as stated fails before the alert types are initialized: no alert row
    is rendered then.  While the types load after mount, a reload and a
    change of page do not make the component call [loadAlerts]: no alert is
    held, the table is given no item and a total item count of 0, and the
    component shows the spinner, not the table. *)
Lemma no_row_before_initialization :
  let w := run Sample.mounted Sample.whileTypesLoad in
  AlertTypeState.isInitialized (alertTypesState (state w)) = false
  ∧ loadAlertsCalls w = []
  ∧ AlertState.data (alertsState (state w)) = []
  ∧ items (table "alerts" Sample.hasAllPrivilege true (state w)) = []
  ∧ pagination_totalItemCount (table "alerts" Sample.hasAllPrivilege true (state w)) = 0%Z
  ∧ render "alerts" Sample.hasAllPrivilege true (state w) = LoadingSpinner.
Proof. repeat split; vm_compute; reflexivity. Qed.

(** The viewer is on the fourth page: the last request is the one for it. *)
Lemma last_request_is_current_query_witness :
  let w := run Sample.mounted Sample.toFourthPage in
  AlertTypeState.data (alertTypesState (state w)) ≠ ∅
  ∧ last (loadAlertsCalls w) =
      Some {| LoadAlerts.page := {| Pagination.index := 3; Pagination.size := 10 |};
              LoadAlerts.searchText := None;
              LoadAlerts.typesFilter := [];
              LoadAlerts.actionTypesFilter := [] |}.
Proof.
  intros w.
  assert (Hindex : AlertTypeState.data (alertTypesState (state w)) ≠ ∅)
    by (vm_compute; discriminate).
  split; [exact Hindex|].
  exact (last_request_is_current_query 10 (fun _ => true) Sample.toFourthPage Hindex).
Defined.

(** An alert of the first page is changed from its row menu: the page is
    asked for again while its two alerts stay displayed. *)
Lemma reload_callbacks_witness :
  let w := run Sample.mounted Sample.firstPageLoaded in
  let w' := step w AlertChanged in
  loadAlertsCalls w' = loadAlertsCalls w ++ [loadAlertsRequest (state w)]
  ∧ AlertState.isLoading (alertsState (state w')) = true
  ∧ AlertState.data (alertsState (state w')) = [Sample.cpu; Sample.disk].
Proof.
  intros w w'.
  assert (Hindex : AlertTypeState.data (alertTypesState (state w)) ≠ ∅)
    by (vm_compute; discriminate).
  destruct (reload_callbacks 10 (fun _ => true) Sample.firstPageLoaded AlertChanged
              (or_introl eq_refl)) as [_ Hreload].
  destruct (Hreload Hindex) as (Hcalls & _ & Hstate).
  split; [exact Hcalls|].
  split; [exact (f_equal AlertState.isLoading Hstate)|vm_compute; reflexivity].
Defined.

(** The second page comes back before the first: the alerts of the first
    page are held at the end, under the second page. *)
Lemma responses_apply_in_settling_order_witness :
  let w := run Sample.mounted Sample.twoPagesRequested in
  let w1 := step w (LoadAlertsSettled 1 (Some (Sample.response [Sample.ping]))) in
  let w2 := step w1 (LoadAlertsSettled 0 (Some (Sample.response [Sample.cpu; Sample.disk]))) in
  AlertState.data (alertsState (state w2)) = [Sample.cpu; Sample.disk]
  ∧ page (state w2) = page (state w)
  ∧ Pagination.index (page (state w)) = 1%Z.
Proof.
  intros w w1 w2.
  assert (Holder : is_Some (pendingLoadAlerts w !! 0%nat))
    by (vm_compute; eexists; reflexivity).
  assert (Hnewer : is_Some (pendingLoadAlerts w !! 1%nat))
    by (vm_compute; eexists; reflexivity).
  destruct (responses_apply_in_settling_order 10 (fun _ => true)
              Sample.twoPagesRequested 0 1
              (Sample.response [Sample.cpu; Sample.disk]) (Sample.response [Sample.ping])
              (le_n 1) Holder Hnewer) as (_ & Hdata & _ & Hsame).
  split; [exact Hdata|]. split; [|vm_compute; reflexivity].
  apply Hsame; discriminate.
Defined.

(** One of the two loaded alerts is selected: the bulk-operation popover is
    given its row, which is editable. *)
Lemma bulk_selected_items_witness :
  let s := state (run Sample.mounted Sample.oneSelected) in
  let row := Sample.item {[ "threshold" := Sample.threshold ]} Sample.disk in
  bulkOperationPopover (table "alerts" Sample.hasAllPrivilege true s) = Some [row]
  ∧ AlertTableItem.id row ∈ selectedIds s
  ∧ AlertTableItem.isEditable row = true.
Proof.
  intros s row.
  assert (Hpopover : bulkOperationPopover (table "alerts" Sample.hasAllPrivilege true s)
                     = Some [row])
    by (vm_compute; reflexivity).
  split; [exact Hpopover|].
  destruct (bulk_selected_items "alerts" Sample.hasAllPrivilege true s [row] Hpopover)
    as [_ Hrows].
  apply Forall_inv in Hrows as [Hselected Heditable].
  split; [exact Hselected|]. apply Heditable. left. reflexivity.
Defined.
